(** * ComfyUI ProfilerX: the time-range query and the metrics model

    The first part embeds [src/web/app.d.ts] (the time-range selector's
    option table and [filterHistoryByTimeRange]) together with the record
    types of [src/unnamed/part_002] and [src/web/modules.d.ts].  The second
    part models the aggregation engine, whose code is not part of the
    TypeScript sources, from its written specification. *)

From Stdlib Require Import ZArith QArith Lia Sorted.
From stdpp Require Import base option list strings gmap.

Local Open Scope string_scope.
Local Open Scope Z_scope.

(** ** Data model ([src/web/modules.d.ts], module "./types") *)

(** [NodeProfile].  The declared TypeScript fields, with the two fields that
    are filled in by later events ([endTime], [cacheHit]) optional while the
    node is in flight.  Timestamps are milliseconds, sizes are byte counts. *)
Record NodeProfile := mkNodeProfile {
  nodeId : string;
  nodeType : string;
  np_startTime : Z;
  np_endTime : option Z;
  vramBefore : N;
  vramAfter : N;
  ramBefore : N;
  ramAfter : N;
  cacheHit : option bool;
  error : option string
}.

(** [WorkflowProfile]. [nodes] is a [Record<string, NodeProfile>]. *)
Record WorkflowProfile := mkWorkflowProfile {
  promptId : string;
  startTime : Z;
  endTime : option Z;
  nodes : gmap string NodeProfile;
  executionOrder : list string;
  totalVramPeak : N;
  totalRamPeak : N;
  cacheHits : nat;
  cacheMisses : nat
}.

(** [ProfilerSettings]: only [maxDataPoints] is read by the model. *)
Record ProfilerSettings := mkProfilerSettings {
  showMemoryChart : bool;
  showTimeChart : bool;
  showCacheStats : bool;
  refreshRate : nat;
  maxDataPoints : nat;
  chartHeight : nat;
  chartWidth : nat
}.

(** ** A fragment of JavaScript values

    Enough of the language to evaluate line 96 of [app.d.ts],
    [now - (ranges[timeRange] || 0)], and the comparison of line 97.
    Numbers are the integers (timestamps and durations in milliseconds)
    plus [NaN]. *)
Module Js.

Inductive number :=
| Finite (z : Z)
| NaN.

Inductive value :=
| VNumber (n : number)
| VUndefined
| VFunction (name : string)
| VObject.

(** ToBoolean. *)
Definition truthy (v : value) : bool :=
  match v with
  | VNumber (Finite z) => negb (z =? 0)%Z
  | VNumber NaN => false
  | VUndefined => false
  | VFunction _ => true
  | VObject => true
  end.

(** [a || b] *)
Definition or_else (a b : value) : value :=
  if truthy a then a else b.

(** ToNumber.  A function or a plain object is first turned into a string
    (its source text, "[object Object]"), which is not numeric. *)
Definition to_number (v : value) : number :=
  match v with
  | VNumber n => n
  | VUndefined => NaN
  | VFunction _ => NaN
  | VObject => NaN
  end.

(** [a - b] *)
Definition sub (a b : number) : number :=
  match a, b with
  | Finite x, Finite y => Finite (x - y)
  | _, _ => NaN
  end.

(** [a > b]: false as soon as one side is [NaN]. *)
Definition gt (a b : number) : bool :=
  match a, b with
  | Finite x, Finite y => (y <? x)%Z
  | _, _ => false
  end.

(** The property names every object literal inherits from
    [Object.prototype]; [__proto__] is the prototype object itself, the
    others are functions. *)
Definition object_prototype_functions : list string :=
  [ "constructor"; "hasOwnProperty"; "isPrototypeOf"; "propertyIsEnumerable";
    "toLocaleString"; "toString"; "valueOf";
    "__defineGetter__"; "__defineSetter__";
    "__lookupGetter__"; "__lookupSetter__" ].

Definition object_prototype_get (key : string) : value :=
  if decide (key = "__proto__") then VObject
  else if decide (key ∈ object_prototype_functions) then VFunction key
  else VUndefined.

Definition inherited (key : string) : bool :=
  bool_decide (key = "__proto__" ∨ key ∈ object_prototype_functions).

(** An object literal whose own properties are numbers. *)
Fixpoint own_property (o : list (string * Z)) (key : string) : option Z :=
  match o with
  | [] => None
  | (k, v) :: rest => if decide (k = key) then Some v else own_property rest key
  end.

(** [o[key]]: the own property if there is one, else the prototype's. *)
Definition get (o : list (string * Z)) (key : string) : value :=
  match own_property o key with
  | Some v => VNumber (Finite v)
  | None => object_prototype_get key
  end.

(** [Array.prototype.filter]: visits the elements in index order and
    appends those the callback accepts to a new array. *)
Fixpoint array_filter {A} (callback : A → bool) (a : list A) : list A :=
  match a with
  | [] => []
  | item :: rest =>
      if callback item then item :: array_filter callback rest
      else array_filter callback rest
  end.

End Js.

(** ** The time-range selector and filter ([src/web/app.d.ts]) *)
Module TimeRange.

Record TimeRangeOption := mkOption { value : string; label : string }.

(** The [options] table of [createTimeRangeSelector] (lines 64-70); one
    [<option>] element is appended to the select per entry, in order. *)
Definition options : list TimeRangeOption :=
  [ mkOption "1h" "1 hour";
    mkOption "6h" "6 hours";
    mkOption "24h" "24 hours";
    mkOption "7d" "7 days";
    mkOption "all" "All time" ].

(** The values of the [<option>] elements the selector ends up with. *)
Definition selector_values : list string := map value options.

(** The [ranges] object literal (lines 89-94). *)
Definition ranges : list (string * Z) :=
  [ ("1h", 60 * 60 * 1000);
    ("6h", 6 * 60 * 60 * 1000);
    ("24h", 24 * 60 * 60 * 1000);
    ("7d", 7 * 24 * 60 * 60 * 1000) ]%Z.

(** Line 96: [now - (ranges[timeRange] || 0)], [now] being the reading of
    [Date.now()]. *)
Definition cutoff (timeRange : string) (now : Z) : Js.number :=
  Js.sub (Js.Finite now)
         (Js.to_number (Js.or_else (Js.get ranges timeRange)
                                   (Js.VNumber (Js.Finite 0)))).

(** [filterHistoryByTimeRange(history, timeRange)] on the contents of the
    array, with the clock reading [now] as an explicit input. *)
Definition filterHistoryByTimeRange
    (history : list WorkflowProfile) (timeRange : string) (now : Z)
    : list WorkflowProfile :=
  if decide (timeRange = "all") then history
  else
    Js.array_filter
      (fun item => Js.gt (Js.Finite (startTime item)) (cutoff timeRange now))
      history.

(** The same function on array references.  The store maps an address to
    the contents of the array allocated there; ['all'] returns the reference
    it was given, every other token allocates the array [filter] builds. *)
Abbreviation store := (list (list WorkflowProfile)).

Definition read (σ : store) (a : nat) : list WorkflowProfile :=
  default [] (σ !! a).

Definition alloc (σ : store) (items : list WorkflowProfile) : store * nat :=
  ((σ ++ [items])%list, length σ).

Definition filterHistoryByTimeRange_ref
    (σ : store) (history : nat) (timeRange : string) (now : Z)
    : store * nat :=
  if decide (timeRange = "all") then (σ, history)
  else
    alloc σ
      (Js.array_filter
         (fun item => Js.gt (Js.Finite (startTime item)) (cutoff timeRange now))
         (read σ history)).

(** The statements below are phrased with these two tables: the five range
    tokens of the wire contract, and the duration in milliseconds the
    contract gives each token that names a window. *)
Definition vocabulary : list string := ["1h"; "6h"; "24h"; "7d"; "all"].

Definition windows : list (string * Z) :=
  [("1h", 3600000); ("6h", 21600000); ("24h", 86400000); ("7d", 604800000)]%Z.

(** A history entry of run [pid] that started at [t], for the examples; the
    filter reads no field but [startTime]. *)
Definition entry (pid : string) (t : Z) : WorkflowProfile :=
  {| promptId := pid; startTime := t; endTime := Some t;
     nodes := ∅; executionOrder := [];
     totalVramPeak := 0; totalRamPeak := 0;
     cacheHits := 0; cacheMisses := 0 |}.

End TimeRange.

(** ** The Workflow Aggregator and Sample Ingest *)
Module Aggregator.

(** Modelled from the spec: the errors of the ingest path (section 7); the
    code that raises them is missing from the sources. *)
Inductive IngestError :=
| DanglingNodeError
| UnknownWorkflowError
| IllegalStateError.

(** Modelled from the spec: the ingest event stream.  The TypeScript sources
    only declare the records the events are assembled into; the code that
    consumes the events is not among them.  One constructor per event kind
    ([start], [end], [cacheResolved]), carrying the fields that kind uses. *)
Inductive Event :=
| NodeStart (pid nid ntype : string) (timestamp : Z) (vramBefore ramBefore : N)
| NodeEnd (pid nid : string) (timestamp : Z) (vramAfter ramAfter : N)
          (err : option string)
| CacheResolved (pid nid : string) (hit : bool).

(** The run an event belongs to. *)
Definition event_promptId (ev : Event) : string :=
  match ev with
  | NodeStart pid _ _ _ _ _ => pid
  | NodeEnd pid _ _ _ _ _ => pid
  | CacheResolved pid _ _ => pid
  end.

(** Modelled from the spec: the [WorkflowProfile] created on the first
    "node started" event that carries a new [promptId]; the aggregator code
    is missing from the sources. *)
Definition new_workflow (pid : string) (timestamp : Z) : WorkflowProfile :=
  {| promptId := pid; startTime := timestamp; endTime := None;
     nodes := ∅; executionOrder := [];
     totalVramPeak := 0; totalRamPeak := 0;
     cacheHits := 0; cacheMisses := 0 |}.

(** Modelled from the spec: the open [NodeProfile] inserted by
    [onNodeStart]; the ingest code is missing from the sources. *)
Definition open_node (nid ntype : string) (timestamp : Z) (vb rb : N)
    : NodeProfile :=
  {| nodeId := nid; nodeType := ntype;
     np_startTime := timestamp; np_endTime := None;
     vramBefore := vb; vramAfter := 0; ramBefore := rb; ramAfter := 0;
     cacheHit := None; error := None |}.

(** Modelled from the spec: the node-level update of the aggregator, which
    is missing from the sources.  It stores the node and recomputes
    [totalVramPeak = max(current, vramAfter)], likewise for RAM. *)
Definition update_node (w : WorkflowProfile) (n : NodeProfile)
    : WorkflowProfile :=
  {| promptId := promptId w; startTime := startTime w; endTime := endTime w;
     nodes := <[nodeId n := n]> (nodes w);
     executionOrder := executionOrder w;
     totalVramPeak := N.max (totalVramPeak w) (vramAfter n);
     totalRamPeak := N.max (totalRamPeak w) (ramAfter n);
     cacheHits := cacheHits w; cacheMisses := cacheMisses w |}.

(** Modelled from the spec: [executionOrder] is append-only, one entry per
    start event (the code is missing from the sources). *)
Definition push_order (w : WorkflowProfile) (nid : string) : WorkflowProfile :=
  {| promptId := promptId w; startTime := startTime w; endTime := endTime w;
     nodes := nodes w;
     executionOrder := (executionOrder w ++ [nid])%list;
     totalVramPeak := totalVramPeak w; totalRamPeak := totalRamPeak w;
     cacheHits := cacheHits w; cacheMisses := cacheMisses w |}.

(** Modelled from the spec: the counter bumped when a cache outcome first
    resolves (the code is missing from the sources). *)
Definition count_cache (w : WorkflowProfile) (hit : bool) : WorkflowProfile :=
  {| promptId := promptId w; startTime := startTime w; endTime := endTime w;
     nodes := nodes w; executionOrder := executionOrder w;
     totalVramPeak := totalVramPeak w; totalRamPeak := totalRamPeak w;
     cacheHits := if hit then S (cacheHits w) else cacheHits w;
     cacheMisses := if hit then cacheMisses w else S (cacheMisses w) |}.

(** Modelled from the spec: what "node ended" writes into the node's
    profile (the code is missing from the sources). *)
Definition close_node (n : NodeProfile) (timestamp : Z) (va ra : N)
    (err : option string) : NodeProfile :=
  {| nodeId := nodeId n; nodeType := nodeType n;
     np_startTime := np_startTime n; np_endTime := Some timestamp;
     vramBefore := vramBefore n; vramAfter := va;
     ramBefore := ramBefore n; ramAfter := ra;
     cacheHit := cacheHit n; error := err |}.

(** Modelled from the spec: what "cache resolved" writes into the node's
    profile (the code is missing from the sources). *)
Definition resolve_node (n : NodeProfile) (hit : bool) : NodeProfile :=
  {| nodeId := nodeId n; nodeType := nodeType n;
     np_startTime := np_startTime n; np_endTime := np_endTime n;
     vramBefore := vramBefore n; vramAfter := vramAfter n;
     ramBefore := ramBefore n; ramAfter := ramAfter n;
     cacheHit := Some hit; error := error n |}.

(** Modelled from the spec: [onNodeStart] on the workflow it belongs to
    (missing from the sources): a new open profile is inserted and the node
    id is appended to the execution order. *)
Definition onNodeStart (w : WorkflowProfile) (nid ntype : string)
    (timestamp : Z) (vb rb : N) : WorkflowProfile :=
  push_order (update_node w (open_node nid ntype timestamp vb rb)) nid.

(** Modelled from the spec: [onNodeEnd] (missing from the sources) closes
    the matching open profile and signals [DanglingNodeError] when there is
    none. *)
Definition onNodeEnd (w : WorkflowProfile) (nid : string) (timestamp : Z)
    (va ra : N) (err : option string) : IngestError + WorkflowProfile :=
  match nodes w !! nid with
  | Some n =>
      match np_endTime n with
      | None => inr (update_node w (close_node n timestamp va ra err))
      | Some _ => inl DanglingNodeError
      end
  | None => inl DanglingNodeError
  end.

(** Modelled from the spec: [onCacheResolved] (missing from the sources)
    sets [cacheHit] once and bumps the matching counter; a second call is an
    [IllegalStateError] that keeps the first value.  As in the scenario of
    the specification, the outcome may resolve after the node has ended. *)
Definition onCacheResolved (w : WorkflowProfile) (nid : string) (hit : bool)
    : IngestError + WorkflowProfile :=
  match nodes w !! nid with
  | Some n =>
      match cacheHit n with
      | None => inr (count_cache (update_node w (resolve_node n hit)) hit)
      | Some _ => inl IllegalStateError
      end
  | None => inl DanglingNodeError
  end.

(** Modelled from the spec: the state of the aggregator, whose code is
    missing from the sources: the in-flight workflows by [promptId], and the
    errors logged for discarded events (newest first). *)
Record State := mkState {
  inFlight : gmap string WorkflowProfile;
  logged : list IngestError
}.

Definition init : State := {| inFlight := ∅; logged := [] |}.

Definition store_workflow (s : State) (pid : string) (w : WorkflowProfile)
    : State :=
  {| inFlight := <[pid := w]> (inFlight s); logged := logged s |}.

Definition discard (s : State) (e : IngestError) : State :=
  {| inFlight := inFlight s; logged := e :: logged s |}.

Definition settle (s : State) (pid : string)
    (r : IngestError + WorkflowProfile) : State :=
  match r with
  | inl e => discard s e
  | inr w => store_workflow s pid w
  end.

(** Modelled from the spec: the dispatch of one event (missing from the
    sources).  A start event creates the workflow when its [promptId] is
    new; any other event for an unknown [promptId] is logged and dropped,
    as is an event its handler rejects. *)
Definition ingest (s : State) (ev : Event) : State :=
  match ev with
  | NodeStart pid nid ntype t vb rb =>
      let w := default (new_workflow pid t) (inFlight s !! pid) in
      store_workflow s pid (onNodeStart w nid ntype t vb rb)
  | NodeEnd pid nid t va ra err =>
      match inFlight s !! pid with
      | Some w => settle s pid (onNodeEnd w nid t va ra err)
      | None => discard s UnknownWorkflowError
      end
  | CacheResolved pid nid hit =>
      match inFlight s !! pid with
      | Some w => settle s pid (onCacheResolved w nid hit)
      | None => discard s UnknownWorkflowError
      end
  end.

(** The aggregator after a sequence of events, oldest first. *)
Definition run_from (s : State) (es : list Event) : State := foldl ingest s es.
Definition run (es : list Event) : State := run_from init es.

(** Modelled from the spec: [finalize] (missing from the sources) closes the
    workflow and moves it out of the in-flight set. *)
Definition finalize (s : State) (pid : string) (t : Z)
    : IngestError + (WorkflowProfile * State) :=
  match inFlight s !! pid with
  | Some w =>
      inr ({| promptId := promptId w; startTime := startTime w;
              endTime := Some t; nodes := nodes w;
              executionOrder := executionOrder w;
              totalVramPeak := totalVramPeak w;
              totalRamPeak := totalRamPeak w;
              cacheHits := cacheHits w; cacheMisses := cacheMisses w |},
           {| inFlight := delete pid (inFlight s); logged := logged s |})
  | None => inl UnknownWorkflowError
  end.

(** *** Well-formed pairing of an event sequence

    Modelled from the spec: the pairing discipline of the event source,
    which no source file states.  This record is what has been seen so far
    of each node, identified by its run and its node id. *)
Record Seen := mkSeen {
  started : gset (string * string);
  ended : gset (string * string);
  resolved : gset (string * string)
}.

Definition nothing_seen : Seen :=
  {| started := ∅; ended := ∅; resolved := ∅ |}.

(** A node starts once; it ends once, after it started; its cache outcome
    resolves once, after it started. *)
Definition event_ok (sn : Seen) (ev : Event) : bool :=
  match ev with
  | NodeStart pid nid _ _ _ _ => bool_decide ((pid, nid) ∉ started sn)
  | NodeEnd pid nid _ _ _ _ =>
      bool_decide ((pid, nid) ∈ started sn ∧ (pid, nid) ∉ ended sn)
  | CacheResolved pid nid _ =>
      bool_decide ((pid, nid) ∈ started sn ∧ (pid, nid) ∉ resolved sn)
  end.

Definition note (sn : Seen) (ev : Event) : Seen :=
  match ev with
  | NodeStart pid nid _ _ _ _ =>
      {| started := {[ (pid, nid) ]} ∪ started sn;
         ended := ended sn; resolved := resolved sn |}
  | NodeEnd pid nid _ _ _ _ =>
      {| started := started sn;
         ended := {[ (pid, nid) ]} ∪ ended sn; resolved := resolved sn |}
  | CacheResolved pid nid _ =>
      {| started := started sn; ended := ended sn;
         resolved := {[ (pid, nid) ]} ∪ resolved sn |}
  end.

Fixpoint well_formed_from (sn : Seen) (es : list Event) : bool :=
  match es with
  | [] => true
  | ev :: rest => event_ok sn ev && well_formed_from (note sn ev) rest
  end.

Definition well_formed (es : list Event) : bool :=
  well_formed_from nothing_seen es.

(** *** Observations *)

(** The number of contained profiles whose cache outcome has resolved. *)
Definition resolved_nodes (w : WorkflowProfile) : nat :=
  size (filter (λ kv : string * NodeProfile, is_Some (cacheHit kv.2)) (nodes w)).

(** The [vramAfter] and [ramAfter] readings the events of run [pid] carry. *)
Fixpoint observed_vram (pid : string) (es : list Event) : list N :=
  match es with
  | [] => []
  | NodeEnd p _ _ va _ _ :: rest =>
      if decide (p = pid) then va :: observed_vram pid rest
      else observed_vram pid rest
  | _ :: rest => observed_vram pid rest
  end.

Fixpoint observed_ram (pid : string) (es : list Event) : list N :=
  match es with
  | [] => []
  | NodeEnd p _ _ _ ra _ :: rest =>
      if decide (p = pid) then ra :: observed_ram pid rest
      else observed_ram pid rest
  | _ :: rest => observed_ram pid rest
  end.

Definition maximum (l : list N) : N := foldr N.max 0%N l.

(** Whether the aggregator applies an event to a profile, making it a
    node-level update, or logs and drops it. *)
Definition applied (s : State) (ev : Event) : bool :=
  match ev with
  | NodeStart _ _ _ _ _ _ => true
  | NodeEnd pid nid t va ra err =>
      match inFlight s !! pid with
      | Some w =>
          match onNodeEnd w nid t va ra err with
          | inr _ => true
          | inl _ => false
          end
      | None => false
      end
  | CacheResolved pid nid hit =>
      match inFlight s !! pid with
      | Some w =>
          match onCacheResolved w nid hit with
          | inr _ => true
          | inl _ => false
          end
      | None => false
      end
  end.

(** The [vramAfter] reading an event brings to run [pid]: the one of an end
    event of that run that is applied; a dropped event brings none. *)
Definition vram_reading (s : State) (pid : string) (ev : Event) : list N :=
  match ev with
  | NodeEnd p _ _ va _ _ =>
      if bool_decide (p = pid) && applied s ev then [va] else []
  | _ => []
  end.

Definition ram_reading (s : State) (pid : string) (ev : Event) : list N :=
  match ev with
  | NodeEnd p _ _ _ ra _ =>
      if bool_decide (p = pid) && applied s ev then [ra] else []
  | _ => []
  end.

(** The readings run [pid] has taken in over a sequence of events, in
    order, the aggregator starting in state [s]. *)
Fixpoint seen_vram_from (s : State) (pid : string) (es : list Event)
    : list N :=
  match es with
  | [] => []
  | ev :: rest =>
      (vram_reading s pid ev ++ seen_vram_from (ingest s ev) pid rest)%list
  end.

Fixpoint seen_ram_from (s : State) (pid : string) (es : list Event)
    : list N :=
  match es with
  | [] => []
  | ev :: rest =>
      (ram_reading s pid ev ++ seen_ram_from (ingest s ev) pid rest)%list
  end.

Definition seen_vram (pid : string) (es : list Event) : list N :=
  seen_vram_from init pid es.

Definition seen_ram (pid : string) (es : list Event) : list N :=
  seen_ram_from init pid es.

(** The event scenario of the specification's test section: one node of
    run "p1" starts at 0 with 1000 bytes of VRAM in use, ends at 100 with
    2000, and its cache lookup resolves to a hit. *)
Definition scenario : list Event :=
  [ NodeStart "p1" "n1" "KSampler" 0 1000 0;
    NodeEnd "p1" "n1" 100 2000 0 None;
    CacheResolved "p1" "n1" true ].

(** *** Invariants of a run

    What has been seen of the events so far. *)
Definition seen_after (es : list Event) : Seen := foldl note nothing_seen es.

(** The cache counters add up to the number of resolved nodes. *)
Definition counted (w : WorkflowProfile) : Prop :=
  (cacheHits w + cacheMisses w)%nat = resolved_nodes w.

(** No node of the run reports more memory than the recorded peaks. *)
Definition within_peaks (w : WorkflowProfile) : Prop :=
  ∀ nid n, nodes w !! nid = Some n →
    (vramAfter n ≤ totalVramPeak w)%N ∧ (ramAfter n ≤ totalRamPeak w)%N.

(** A node that is still open has reported no memory yet. *)
Definition open_unreported (w : WorkflowProfile) : Prop :=
  ∀ nid n, nodes w !! nid = Some n → np_endTime n = None →
    vramAfter n = 0%N ∧ ramAfter n = 0%N.

(** A peak is 0 or the reading of one of the nodes of the run. *)
Definition vram_attained (w : WorkflowProfile) : Prop :=
  totalVramPeak w = 0%N
  ∨ ∃ nid n, nodes w !! nid = Some n ∧ vramAfter n = totalVramPeak w.

Definition ram_attained (w : WorkflowProfile) : Prop :=
  totalRamPeak w = 0%N
  ∨ ∃ nid n, nodes w !! nid = Some n ∧ ramAfter n = totalRamPeak w.

(** Together: each peak is the maximum over the nodes of the run. *)
Definition peaks_sound (w : WorkflowProfile) : Prop :=
  within_peaks w ∧ open_unreported w ∧ vram_attained w ∧ ram_attained w.

(** The nodes recorded for a run; none while the run is unknown. *)
Definition nodes_of (s : State) (pid : string) : gmap string NodeProfile :=
  from_option nodes ∅ (inFlight s !! pid).

(** The in-flight profiles hold exactly the nodes that were started, each
    under its own id, closed if and only if its end event was seen and
    resolved if and only if its cache event was seen. *)
Definition coherent (sn : Seen) (s : State) : Prop :=
  ∀ pid nid,
    ((pid, nid) ∈ ended sn ∨ (pid, nid) ∈ resolved sn → (pid, nid) ∈ started sn)
    ∧ ((pid, nid) ∈ started sn ↔ is_Some (nodes_of s pid !! nid))
    ∧ ∀ n, nodes_of s pid !! nid = Some n →
        nodeId n = nid
        ∧ ((pid, nid) ∈ ended sn ↔ is_Some (np_endTime n))
        ∧ ((pid, nid) ∈ resolved sn ↔ is_Some (cacheHit n)).

(** The invariant of well-formed runs. *)
Record run_inv (es : list Event) : Prop := mkRunInv {
  inv_coherent : coherent (seen_after es) (run es);
  inv_profiles : ∀ pid w, inFlight (run es) !! pid = Some w →
    counted w ∧ peaks_sound w
    ∧ totalVramPeak w = maximum (observed_vram pid es)
    ∧ totalRamPeak w = maximum (observed_ram pid es);
  inv_absent : ∀ pid, inFlight (run es) !! pid = None →
    observed_vram pid es = [] ∧ observed_ram pid es = []
}.

(** What holds of the peaks after any sequence of events, well formed or
    not: a run in flight has no node above its peaks, and its peaks are the
    largest readings it has taken in; a run not in flight has taken in
    none. *)
Definition peaks_inv (es : list Event) : Prop :=
  ∀ pid,
    match inFlight (run es) !! pid with
    | Some w =>
        within_peaks w
        ∧ totalVramPeak w = maximum (seen_vram pid es)
        ∧ totalRamPeak w = maximum (seen_ram pid es)
    | None => seen_vram pid es = [] ∧ seen_ram pid es = []
    end.

End Aggregator.

(** ** The Running-Average Tracker *)
Module Tracker.

(** The per-node-type sums of [ProfilerStats.node_averages]
    ([src/unnamed/part_002], lines 27-33). *)
Record NodeAccumulator := mkNodeAccumulator {
  total_time : Z;
  vram_usage : Z;
  ram_usage : Z;
  count : nat;
  cache_hits : nat
}.

(** The sums of [ProfilerStats.workflow_averages] (lines 34-39). *)
Record WorkflowAccumulator := mkWorkflowAccumulator {
  wf_total_time : Z;
  vram_peak : Z;
  ram_peak : Z;
  wf_count : nat
}.

(** The tracker: the two accumulator fields of [ProfilerStats]. *)
Record State := mkState {
  node_averages : gmap string NodeAccumulator;
  workflow_averages : WorkflowAccumulator
}.

(** Modelled from the spec: the accumulator of a node type before its first
    sample (the tracker code is missing from the sources). *)
Definition empty_node : NodeAccumulator :=
  {| total_time := 0; vram_usage := 0; ram_usage := 0;
     count := 0; cache_hits := 0 |}.

(** Modelled from the spec: the tracker before any workflow was folded in
    (the tracker code is missing from the sources). *)
Definition init : State :=
  {| node_averages := ∅;
     workflow_averages :=
       {| wf_total_time := 0; vram_peak := 0; ram_peak := 0; wf_count := 0 |} |}.

(** Modelled from the spec: [endTime - startTime]; a profile that was never
    closed contributes no time. *)
Definition elapsed (start : Z) (stop : option Z) : Z :=
  match stop with
  | Some e => e - start
  | None => 0
  end.

(** Modelled from the spec: the fold of one [NodeProfile] into the
    accumulator of its node type; the tracker code is missing from the
    sources. *)
Definition fold_node (a : NodeAccumulator) (n : NodeProfile)
    : NodeAccumulator :=
  {| total_time := total_time a + elapsed (np_startTime n) (np_endTime n);
     vram_usage := vram_usage a + (Z.of_N (vramAfter n) - Z.of_N (vramBefore n));
     ram_usage := ram_usage a + (Z.of_N (ramAfter n) - Z.of_N (ramBefore n));
     count := S (count a);
     cache_hits :=
       if default false (cacheHit n) then S (cache_hits a) else cache_hits a |}.

(** Modelled from the spec: the accumulators are keyed by [nodeType] (the
    tracker code is missing from the sources). *)
Definition record_node (accs : gmap string NodeAccumulator) (n : NodeProfile)
    : gmap string NodeAccumulator :=
  <[nodeType n := fold_node (default empty_node (accs !! nodeType n)) n]> accs.

(** Modelled from the spec: the fold of a finalized [WorkflowProfile] into
    the workflow-level accumulator (missing from the sources). *)
Definition fold_workflow (a : WorkflowAccumulator) (w : WorkflowProfile)
    : WorkflowAccumulator :=
  {| wf_total_time := wf_total_time a + elapsed (startTime w) (endTime w);
     vram_peak := vram_peak a + Z.of_N (totalVramPeak w);
     ram_peak := ram_peak a + Z.of_N (totalRamPeak w);
     wf_count := S (wf_count a) |}.

(** The nodes of a workflow in the order they started. *)
Definition nodes_in_order (w : WorkflowProfile) : list NodeProfile :=
  omap (λ nid, nodes w !! nid) (executionOrder w).

(** Modelled from the spec: what the tracker does on receiving a finalized
    [WorkflowProfile] (the tracker code is missing from the sources). *)
Definition record_workflow (s : State) (w : WorkflowProfile) : State :=
  {| node_averages := foldl record_node (node_averages s) (nodes_in_order w);
     workflow_averages := fold_workflow (workflow_averages s) w |}.

(** Division of a sum by a sample count, over the rationals; it faults
    ([None]) on a zero divisor. *)
Definition divide (sum : Z) (n : nat) : option Q :=
  match n with
  | O => None
  | S _ => Some (inject_Z sum / inject_Z (Z.of_nat n))%Q
  end.

(** Modelled from the spec: an average computed on query as [sum / count],
    guarded by [count == 0], which reports zero; the query code is missing
    from the sources. *)
Definition average (sum : Z) (n : nat) : option Q :=
  if decide (n = 0%nat) then Some 0%Q else divide sum n.

(** Modelled from the spec: the per-node-type report of the query API
    (section 6); no source file declares it. *)
Record NodeAverages := mkNodeAverages {
  avg_time : Q;
  avg_vram : Q;
  avg_ram : Q;
  na_count : nat;
  cache_hit_ratio : Q
}.

(** Modelled from the spec: the workflow-level report of the query API
    (section 6); no source file declares it. *)
Record WorkflowAverages := mkWorkflowAverages {
  wa_avg_time : Q;
  avg_vram_peak : Q;
  avg_ram_peak : Q;
  wa_count : nat
}.

(** Modelled from the spec: the entry [getNodeAverages] reports for one
    node type (query code missing from the sources). *)
Definition node_average (a : NodeAccumulator) : option NodeAverages :=
  t ← average (total_time a) (count a);
  v ← average (vram_usage a) (count a);
  r ← average (ram_usage a) (count a);
  h ← average (Z.of_nat (cache_hits a)) (count a);
  Some {| avg_time := t; avg_vram := v; avg_ram := r;
          na_count := count a; cache_hit_ratio := h |}.

(** Modelled from the spec: [getWorkflowAverages] (query code missing from
    the sources). *)
Definition getWorkflowAverages (s : State) : option WorkflowAverages :=
  let a := workflow_averages s in
  t ← average (wf_total_time a) (wf_count a);
  v ← average (vram_peak a) (wf_count a);
  r ← average (ram_peak a) (wf_count a);
  Some {| wa_avg_time := t; avg_vram_peak := v; avg_ram_peak := r;
          wa_count := wf_count a |}.

(** Modelled from the spec: [getNodeAverages], the report for every node
    type, or a fault if one of them faults. *)
Definition getNodeAverages (s : State) : option (gmap string NodeAverages) :=
  map_fold (λ ntype a acc, m ← acc; r ← node_average a; Some (<[ntype := r]> m))
           (Some ∅) (node_averages s).

End Tracker.

(** ** The History Store *)
Module HistoryStore.

(** Modelled from the spec: a store entry, a finalized profile and the time
    it was inserted; no source file declares it. *)
Record Entry := mkEntry { profile : WorkflowProfile; insertedAt : Z }.

(** Modelled from the spec: the store, whose code is missing from the
    sources: the retained entries, oldest first, and what has been handed
    to the archiving collaborator so far, in hand-over order. *)
Record State := mkState {
  entries : list Entry;
  offered : list Entry
}.

Definition init : State := {| entries := []; offered := [] |}.

(** Modelled from the spec: [append], the only mutator of the store, whose
    code is missing from the sources.  The new entry goes last; whatever
    exceeds [maxDataPoints] is taken from the front, offered to the
    archiver when archiving is enabled, and removed.  The evicted entries
    are returned with the new state. *)
Definition append (settings : ProfilerSettings) (archiving : bool)
    (s : State) (p : WorkflowProfile) (now : Z) : State * list Entry :=
  let held := (entries s ++ [ {| profile := p; insertedAt := now |} ])%list in
  let excess := (length held - maxDataPoints settings)%nat in
  let evicted := take excess held in
  ({| entries := drop excess held;
      offered := if archiving then (offered s ++ evicted)%list else offered s |},
   evicted).

(** Modelled from the spec: the two readers of the store (missing from the
    sources). *)
Definition latest (s : State) : option Entry := last (entries s).
Definition all (s : State) : list Entry := entries s.

(** The store after a sequence of appends, given as the profiles and their
    insertion times in arrival order. *)

Definition append_all (settings : ProfilerSettings) (archiving : bool)
    (s : State) (ps : list (WorkflowProfile * Z)) : State :=
  foldl (λ st pn, (append settings archiving st pn.1 pn.2).1) s ps.

End HistoryStore.

(** ** A fragment of the DOM

    What [createTimeRangeSelector] uses of the document: elements that
    know their tag, the text assigned to [style.cssText], their
    [textContent], their [value], their parent and their element children.
    The store holds every element created so far; an element's address is
    its reference. *)
Module Dom.

Record Element := mkElement {
  localName : string;
  cssText : string;
  textContent : string;
  value : string;
  parentNode : option nat;
  children : list nat
}.

Abbreviation document := (list Element).

(** [HierarchyRequestError], the one error [appendChild] raises here. *)
Inductive DomError := HierarchyRequestError.

Definition blank (name : string) : Element :=
  {| localName := name; cssText := EmptyString; textContent := EmptyString;
     value := EmptyString; parentNode := None; children := [] |}.

(** [document.createElement(name)]: a new element without parent or
    children. *)
Definition createElement (doc : document) (name : string) : document * nat :=
  ((doc ++ [blank name])%list, length doc).

Definition with_cssText (s : string) (e : Element) : Element :=
  {| localName := localName e; cssText := s; textContent := textContent e;
     value := value e; parentNode := parentNode e; children := children e |}.

Definition with_value (s : string) (e : Element) : Element :=
  {| localName := localName e; cssText := cssText e;
     textContent := textContent e; value := s;
     parentNode := parentNode e; children := children e |}.

Definition with_text (s : string) (e : Element) : Element :=
  {| localName := localName e; cssText := cssText e; textContent := s;
     value := value e; parentNode := parentNode e; children := [] |}.

Definition with_parent (p : option nat) (e : Element) : Element :=
  {| localName := localName e; cssText := cssText e;
     textContent := textContent e; value := value e;
     parentNode := p; children := children e |}.

Definition with_children (cs : list nat) (e : Element) : Element :=
  {| localName := localName e; cssText := cssText e;
     textContent := textContent e; value := value e;
     parentNode := parentNode e; children := cs |}.

(** [a.style.cssText = s] *)
Definition set_cssText (a : nat) (s : string) (doc : document) : document :=
  alter (with_cssText s) a doc.

(** [a.value = s] *)
Definition set_value (a : nat) (s : string) (doc : document) : document :=
  alter (with_value s) a doc.

(** [a.textContent = s]: the children of [a] are removed from it and [a]
    holds the text instead. *)
Definition set_textContent (a : nat) (s : string) (doc : document)
    : document :=
  let orphans := from_option children [] (doc !! a) in
  alter (with_text s) a
    (foldr (λ c d, alter (with_parent None) c d) doc orphans).

(** [a] and the chain of its ancestors, innermost first. *)
Fixpoint ancestors (fuel : nat) (doc : document) (a : nat) : list nat :=
  a :: match fuel with
       | O => []
       | S fuel' =>
           match doc !! a ≫= parentNode with
           | Some p => ancestors fuel' doc p
           | None => []
           end
       end.

(** [parent.appendChild(child)]: refused when [child] is [parent] or one of
    its ancestors; otherwise [child] leaves the parent it had, if any, and
    becomes the last child of [parent]. *)
Definition appendChild (parent child : nat) (doc : document)
    : DomError + document :=
  if decide (child ∈ ancestors (length doc) doc parent)
  then inl HierarchyRequestError
  else
    let detached :=
      match doc !! child ≫= parentNode with
      | Some p =>
          alter (λ e, with_children (List.filter (λ c, negb (c =? child)%nat)
                                                 (children e)) e) p doc
      | None => doc
      end in
    inr (alter (with_parent (Some parent)) child
           (alter (λ e, with_children (children e ++ [child])%list e)
                  parent detached)).

End Dom.

(** ** [createTimeRangeSelector] ([src/web/app.d.ts], lines 43-83) *)
Module Selector.

Import Dom.

(** The [TimeRangeSelector] interface: two element references. *)
Record TimeRangeSelector := mkSelector { container : nat; select : nat }.

(** The template literal of lines 45-50. *)
Definition container_css : string := "
        margin: 8px 0;
        display: flex;
        align-items: center;
        gap: 8px;
    ".

(** The template literal of lines 56-62. *)
Definition select_css : string := "
        background: var(--comfy-input-bg);
        color: var(--descrip-text);
        border: 1px solid var(--border-color);
        padding: 4px;
        border-radius: 4px;
    ".

(** The body of the [options.forEach] callback (lines 72-77), then the
    rest of the loop. *)
Fixpoint add_options (sel : nat) (opts : list TimeRange.TimeRangeOption)
    (doc : document) : DomError + document :=
  match opts with
  | [] => inr doc
  | opt :: rest =>
      let '(d1, option) := createElement doc "option" in
      let d2 := set_value option (TimeRange.value opt) d1 in
      let d3 := set_textContent option (TimeRange.label opt) d2 in
      match appendChild sel option d3 with
      | inl e => inl e
      | inr d4 => add_options sel rest d4
      end
  end.

(** [createTimeRangeSelector()], run on the elements that exist so far. *)
Definition createTimeRangeSelector (doc : document)
    : DomError + (document * TimeRangeSelector) :=
  let '(d1, container) := createElement doc "div" in
  let d2 := set_cssText container container_css d1 in
  let '(d3, label) := createElement d2 "label" in
  let d4 := set_textContent label "Show data from last: " d3 in
  let '(d5, select) := createElement d4 "select" in
  let d6 := set_cssText select select_css d5 in
  match add_options select TimeRange.options d6 with
  | inl e => inl e
  | inr d7 =>
      match appendChild container label d7 with
      | inl e => inl e
      | inr d8 =>
          match appendChild container select d8 with
          | inl e => inl e
          | inr d9 =>
              inr (d9, {| container := container; select := select |})
          end
      end
  end.

End Selector.

(** ** Access to the host API ([src/unnamed/part_002], lines 47-56) *)
Module Comfy.

(** How a promise settles.  A [TypeError] is what reading a property of
    [undefined] raises; any other failure carries its reason. *)
Inductive JsError := TypeError | Failure (reason : string).

Inductive settled (A : Type) :=
| Fulfilled (a : A)
| Rejected (e : JsError).
Arguments Fulfilled {A} a.
Arguments Rejected {A} e.

(** A [Response], as far as it is used: how [r.json()] settles. *)
Record Response (J : Type) := mkResponse { json : settled J }.
Arguments json {J} r.

(** The host's [api] object, as declared in [src/unnamed/part_000]:
    [fetchApi(path)] returns a promise of a [Response]. *)
Record Api (J : Type) := mkApi { fetchApi : string → settled (Response J) }.
Arguments fetchApi {J} a path.

(** [window.comfyAPI], each level of which may be missing: [comfyAPI.app]
    and [comfyAPI.api] are module objects whose [app] and [api] property
    hold the instances. *)
Record ComfyAPI (App J : Type) := mkComfyAPI {
  app_module : option (option App);
  api_module : option (option (Api J))
}.
Arguments app_module {App J} c.
Arguments api_module {App J} c.

Record Window (App J : Type) := mkWindow {
  comfyAPI : option (ComfyAPI App J)
}.
Arguments comfyAPI {App J} w.

(** [(window as any).comfyAPI?.app?.app] (line 50): [undefined] as soon as
    one level is missing. *)
Definition app {App J : Type} (w : Window App J) : option App :=
  c ← comfyAPI w; m ← app_module c; m.

(** [(window as any).comfyAPI?.api?.api] (line 51). *)
Definition api {App J : Type} (w : Window App J) : option (Api J) :=
  c ← comfyAPI w; m ← api_module c; m.

(** [fetchProfilerStats()] (lines 54-56): the requests it sends, in order,
    and how the promise it returns settles.  With [api] undefined the call
    [api.fetchApi] raises inside the async function, which rejects its
    promise; otherwise the response is awaited and its [json()] is the
    result. *)
Definition fetchProfilerStats {App J : Type} (w : Window App J)
    : list string * settled J :=
  match api w with
  | None => ([], Rejected TypeError)
  | Some a =>
      (["/profilerx/stats"],
       match fetchApi a "/profilerx/stats" with
       | Fulfilled r => json r
       | Rejected e => Rejected e
       end)
  end.

End Comfy.

(** * Properties of the time-range query *)
Section TimeRangeFacts.

Import TimeRange.

Implicit Types (history : list WorkflowProfile) (timeRange : string) (now : Z).

Lemma array_filter_is_filter {A} (f : A → bool) (l : list A) :
  Js.array_filter f l = List.filter f l.
Proof. induction l as [|x l IH]; simpl; [done|]. by rewrite IH. Qed.

Lemma array_filter_sublist {A} (f : A → bool) (l : list A) :
  sublist (Js.array_filter f l) l.
Proof.
  induction l as [|x l IH]; simpl; [constructor|].
  destruct (f x); by constructor.
Qed.

Lemma array_filter_elem_of {A} (f : A → bool) (l : list A) (x : A) :
  x ∈ Js.array_filter f l ↔ x ∈ l ∧ f x = true.
Proof.
  rewrite array_filter_is_filter, !list_elem_of_In. apply filter_In.
Qed.

Lemma array_filter_none {A} (f : A → bool) (l : list A) :
  (∀ x, x ∈ l → f x = false) → Js.array_filter f l = [].
Proof.
  induction l as [|x l IH]; simpl; [done|]. intros H.
  rewrite (H x) by left. apply IH. intros y Hy. apply H. by right.
Qed.

(** The own properties of [ranges], key by key. *)
Lemma own_property_ranges (key : string) :
  Js.own_property ranges key =
    if decide (key = "1h") then Some 3600000
    else if decide (key = "6h") then Some 21600000
    else if decide (key = "24h") then Some 86400000
    else if decide (key = "7d") then Some 604800000
    else None.
Proof.
  unfold ranges; simpl.
  repeat (case_decide; simplify_eq; try done).
Qed.

Lemma own_property_windows (key : string) (d : Z) :
  Js.own_property ranges key = Some d ↔ (key, d) ∈ windows.
Proof.
  rewrite own_property_ranges. unfold windows.
  rewrite !elem_of_cons, elem_of_nil.
  split.
  - repeat case_decide; intros [= <-]; subst; tauto.
  - intros [H|[H|[H|[H|[]]]]]; injection H as -> ->; reflexivity.
Qed.

Lemma cutoff_window (key : string) (d : Z) now :
  (key, d) ∈ windows → cutoff key now = Js.Finite (now - d).
Proof.
  intros H. pose proof H as Hd. apply own_property_windows in H.
  unfold cutoff, Js.get. rewrite H.
  unfold windows in Hd. rewrite !elem_of_cons, elem_of_nil in Hd.
  destruct Hd as [?|[?|[?|[?|[]]]]]; simplify_eq; reflexivity.
Qed.

(** A token without an own property and without an inherited one falls
    back to the duration 0. *)
Lemma cutoff_fallback (key : string) now :
  Js.own_property ranges key = None → Js.inherited key = false →
  cutoff key now = Js.Finite now.
Proof.
  intros Hown Hinh. unfold cutoff, Js.get, Js.object_prototype_get.
  rewrite Hown. unfold Js.inherited in Hinh.
  apply bool_decide_eq_false in Hinh.
  rewrite decide_False by tauto. rewrite decide_False by tauto.
  simpl. f_equal. lia.
Qed.

(** An inherited property is a function or an object: the cut-off is NaN. *)
Lemma cutoff_inherited (key : string) now :
  Js.own_property ranges key = None → Js.inherited key = true →
  cutoff key now = Js.NaN.
Proof.
  intros Hown Hinh. unfold cutoff, Js.get, Js.object_prototype_get.
  rewrite Hown. unfold Js.inherited in Hinh.
  apply bool_decide_eq_true in Hinh.
  case_decide; [done|]. rewrite decide_True by tauto. done.
Qed.

Lemma outside_vocabulary_no_own (key : string) :
  key ∉ vocabulary → Js.own_property ranges key = None.
Proof.
  unfold vocabulary. rewrite !not_elem_of_cons. intros (?&?&?&?&?&_).
  rewrite own_property_ranges. by repeat (rewrite decide_False by done).
Qed.

Lemma filter_not_all history timeRange now :
  timeRange ≠ "all" →
  filterHistoryByTimeRange history timeRange now =
    Js.array_filter
      (λ item, Js.gt (Js.Finite (startTime item)) (cutoff timeRange now))
      history.
Proof. intros H. unfold filterHistoryByTimeRange. by rewrite decide_False. Qed.

Lemma gt_finite (x y : Z) : Js.gt (Js.Finite x) (Js.Finite y) = (y <? x)%Z.
Proof. reflexivity. Qed.

Lemma gt_nan (x : Z) : Js.gt (Js.Finite x) Js.NaN = false.
Proof. reflexivity. Qed.

(** What the filter keeps once the cut-off is known to be a number. *)
Lemma filter_finite_cutoff history timeRange now (c : Z) :
  timeRange ≠ "all" → cutoff timeRange now = Js.Finite c →
  filterHistoryByTimeRange history timeRange now =
    List.filter (λ item, c <? startTime item) history.
Proof.
  intros Hne Hc. rewrite filter_not_all, Hc by done.
  apply array_filter_is_filter.
Qed.

Lemma filter_nan_cutoff history timeRange now :
  timeRange ≠ "all" → cutoff timeRange now = Js.NaN →
  filterHistoryByTimeRange history timeRange now = [].
Proof.
  intros Hne Hc. rewrite filter_not_all, Hc by done.
  by apply array_filter_none.
Qed.

Lemma windows_not_all timeRange (d : Z) :
  (timeRange, d) ∈ windows → timeRange ≠ "all".
Proof.
  unfold windows. rewrite !elem_of_cons, elem_of_nil.
  intros [H|[H|[H|[H|[]]]]]; injection H as -> ->; discriminate.
Qed.

(** The two ways of running the filter agree: the array the reference
    version returns holds what the value version computes from the contents
    of the input array. *)
Lemma filter_ref_contents (σ : store) (a : nat) timeRange now :
  let r := filterHistoryByTimeRange_ref σ a timeRange now in
  read r.1 r.2 = filterHistoryByTimeRange (read σ a) timeRange now.
Proof.
  unfold filterHistoryByTimeRange_ref, filterHistoryByTimeRange, alloc, read.
  case_decide; simpl; [done|].
  by rewrite lookup_app_r, Nat.sub_diag by lia.
Qed.

(** C1: a token that names a window (1h = 3,600,000 ms, 6h = 21,600,000 ms,
    24h = 86,400,000 ms, 7d = 604,800,000 ms) puts the cut-off at
    [now - duration], and the filter returns exactly the entries whose
    [startTime] is later than the cut-off, in their original order.  With
    '1h' and now = 10,000,000 an entry that started 30 minutes ago is kept
    and one that started 2 hours ago is dropped. *)
Theorem filter_window_token history timeRange (d : Z) now :
  (timeRange, d) ∈ windows →
  cutoff timeRange now = Js.Finite (now - d)
  ∧ filterHistoryByTimeRange history timeRange now
      = List.filter (λ item, now - d <? startTime item) history
  ∧ sublist (filterHistoryByTimeRange history timeRange now) history
  ∧ (∀ item, item ∈ filterHistoryByTimeRange history timeRange now
             ↔ item ∈ history ∧ now - d < startTime item)
  ∧ (∀ kept dropped,
       startTime kept = 10000000 - 30 * 60 * 1000 →
       startTime dropped = 10000000 - 2 * 60 * 60 * 1000 →
       filterHistoryByTimeRange [kept; dropped] "1h" 10000000 = [kept]).
Proof.
  intros Hw. pose proof (windows_not_all _ _ Hw) as Hne.
  pose proof (cutoff_window _ _ now Hw) as Hc.
  split; [exact Hc|]. split; [by apply filter_finite_cutoff|].
  split; [rewrite filter_not_all by done; apply array_filter_sublist|].
  split.
  - intros item. rewrite filter_not_all, Hc by done.
    rewrite array_filter_elem_of, gt_finite, Z.ltb_lt. done.
  - intros kept dropped Hk Hd.
    unfold filterHistoryByTimeRange, cutoff; simpl.
    rewrite Hk, Hd. reflexivity.
Qed.

(** C2 does not hold as stated: with the unrecognized token '3d' and the
    clock at 1000, an entry whose [startTime] is 2000 is returned. *)
Lemma unknown_token_keeps_future_entry :
  ("3d" ∉ vocabulary)
  ∧ cutoff "3d" 1000 = Js.Finite 1000
  ∧ filterHistoryByTimeRange [entry "p1" 2000] "3d" 1000
    = [entry "p1" 2000].
Proof.
  split; [|split; reflexivity].
  unfold vocabulary. rewrite !not_elem_of_cons. repeat split; try discriminate.
  apply not_elem_of_nil.
Qed.

(** C2, amended: for a token outside the vocabulary the call returns a
    result that holds only entries of the input whose [startTime] is later
    than [now], so the result is empty whenever no entry starts after
    [now]; and unless the token names a property that object literals
    inherit, it is treated as duration 0: the cut-off is [now] and the
    result is exactly the entries that start after [now]. *)
Theorem filter_unknown_token history timeRange now :
  timeRange ∉ vocabulary →
  (∀ item, item ∈ filterHistoryByTimeRange history timeRange now →
           item ∈ history ∧ now < startTime item)
  ∧ ((∀ item, item ∈ history → startTime item ≤ now) →
     filterHistoryByTimeRange history timeRange now = [])
  ∧ (Js.inherited timeRange = false →
     cutoff timeRange now = Js.Finite now
     ∧ filterHistoryByTimeRange history timeRange now
       = List.filter (λ item, now <? startTime item) history).
Proof.
  intros Hout. pose proof (outside_vocabulary_no_own _ Hout) as Hown.
  assert (Hne : timeRange ≠ "all").
  { intros ->. apply Hout. unfold vocabulary. set_solver. }
  destruct (Js.inherited timeRange) eqn:Hinh.
  - pose proof (cutoff_inherited _ now Hown Hinh) as Hc.
    rewrite (filter_nan_cutoff _ _ _ Hne Hc).
    split; [intros item Hin; by apply elem_of_nil in Hin|].
    split; [done|discriminate].
  - pose proof (cutoff_fallback _ now Hown Hinh) as Hc.
    rewrite (filter_finite_cutoff _ _ _ _ Hne Hc).
    split; [|split; [|done]].
    + intros item. rewrite list_elem_of_In, filter_In, Z.ltb_lt.
      by rewrite <- list_elem_of_In.
    + intros Hall. rewrite <- array_filter_is_filter.
      apply array_filter_none. intros item Hin. apply Z.ltb_ge. auto.
Qed.

(** C3: with the token 'all' the filter is the identity: it returns its
    input, the same array (same reference, store untouched), hence the same
    entries in the same order. *)
Theorem filter_all_identity history now :
  filterHistoryByTimeRange history "all" now = history
  ∧ ∀ (σ : store) (a : nat),
      filterHistoryByTimeRange_ref σ a "all" now = (σ, a).
Proof. split; [reflexivity|intros; reflexivity]. Qed.

(** C9: the filter leaves its input array as it was: whatever the token,
    after the call the array passed in holds the same entries in the same
    order (as does every other array allocated before the call), while the
    array returned holds the filtered entries. *)
Theorem filter_leaves_input_unchanged
    (σ : store) (history : nat) items timeRange now :
  σ !! history = Some items →
  let after := filterHistoryByTimeRange_ref σ history timeRange now in
  after.1 !! history = Some items
  ∧ (∀ (a : nat) (other : list WorkflowProfile),
       σ !! a = Some other → after.1 !! a = Some other)
  ∧ read after.1 after.2 = filterHistoryByTimeRange items timeRange now.
Proof.
  intros Hin after.
  assert (Hframe : ∀ (a : nat) (other : list WorkflowProfile),
    σ !! a = Some other → after.1 !! a = Some other).
  { intros a other Ha. unfold after, filterHistoryByTimeRange_ref, alloc.
    case_decide; simpl; [done|].
    rewrite lookup_app_l; [done|]. by eapply lookup_lt_Some. }
  split; [by apply Hframe|]. split; [exact Hframe|].
  unfold after. rewrite filter_ref_contents. unfold read. by rewrite Hin.
Qed.

(** C10, evaluated where it fails: 'toString' is outside the vocabulary,
    yet [ranges['toString']] is the inherited function, so the cut-off is
    NaN instead of [now] and an entry from the future (start 2000, clock at
    1000) is dropped instead of returned. *)
Lemma inherited_key_drops_future_entry :
  ("toString" ∉ vocabulary)
  ∧ 1000 < startTime (entry "p1" 2000)
  ∧ Js.get ranges "toString" = Js.VFunction "toString"
  ∧ cutoff "toString" 1000 = Js.NaN
  ∧ filterHistoryByTimeRange [entry "p1" 2000] "toString" 1000
    = [].
Proof.
  split; [|split; [simpl; lia|split; [reflexivity|split; reflexivity]]].
  unfold vocabulary. rewrite !not_elem_of_cons. repeat split; try discriminate.
  apply not_elem_of_nil.
Qed.

(** The scenario of C1 run on two concrete entries. *)
Lemma filter_window_token_witness :
  ("1h", 3600000) ∈ windows
  ∧ filterHistoryByTimeRange
      [entry "recent" 8200000;
       entry "old" 2800000] "1h" 10000000
    = [entry "recent" 8200000].
Proof.
  assert (H : ("1h", 3600000) ∈ windows) by (unfold windows; left).
  split; [exact H|].
  destruct (filter_window_token [] "1h" 3600000 10000000 H)
    as (_ & _ & _ & _ & Hscenario).
  apply Hscenario; reflexivity.
Defined.

(** The amended C2 at the token '3d' with one past and one future entry. *)
Lemma filter_unknown_token_witness :
  ("3d" ∉ vocabulary)
  ∧ cutoff "3d" 1000 = Js.Finite 1000
  ∧ filterHistoryByTimeRange
      [entry "past" 500;
       entry "future" 2000] "3d" 1000
    = List.filter (λ item, 1000 <? startTime item)
        [entry "past" 500;
         entry "future" 2000].
Proof.
  assert (H : "3d" ∉ vocabulary).
  { unfold vocabulary. rewrite !not_elem_of_cons.
    repeat split; try discriminate. apply not_elem_of_nil. }
  split; [exact H|].
  destruct (filter_unknown_token
              [entry "past" 500;
               entry "future" 2000] "3d" 1000 H)
    as (_ & _ & Hzero).
  apply Hzero. reflexivity.
Defined.

(** C9 at a store with one array, filtered with '1h'. *)
Lemma filter_leaves_input_unchanged_witness :
  ([[entry "old" 2800000]] : store) !! 0%nat
    = Some [entry "old" 2800000]
  ∧ (filterHistoryByTimeRange_ref
       [[entry "old" 2800000]] 0 "1h" 10000000).1 !! 0%nat
    = Some [entry "old" 2800000]
  ∧ read (filterHistoryByTimeRange_ref
            [[entry "old" 2800000]] 0 "1h" 10000000).1
         (filterHistoryByTimeRange_ref
            [[entry "old" 2800000]] 0 "1h" 10000000).2
    = [].
Proof.
  split; [reflexivity|].
  destruct (filter_leaves_input_unchanged
              [[entry "old" 2800000]] 0
              [entry "old" 2800000] "1h" 10000000 eq_refl)
    as (Hsame & _ & Hresult).
  split; [exact Hsame|]. rewrite Hresult. reflexivity.
Defined.

End TimeRangeFacts.

(** * Properties of the Workflow Aggregator *)
Section AggregatorFacts.

Import Aggregator.

Implicit Types (s : State) (sn : Seen) (ev : Event) (es : list Event).
Implicit Types (w : WorkflowProfile) (n : NodeProfile) (pid nid : string).

Local Abbreviation is_resolved :=
  (λ kv : string * NodeProfile, is_Some (cacheHit kv.2)).

Lemma resolved_insert_fresh (m : gmap string NodeProfile) nid n :
  m !! nid = None → cacheHit n = None →
  size (filter is_resolved (<[nid:=n]> m)) = size (filter is_resolved m).
Proof.
  intros Hm Hn. rewrite map_filter_insert_not'; [done| |].
  - simpl. rewrite Hn. by intros [? ?].
  - intros y Hy. congruence.
Qed.

Lemma resolved_insert_same (m : gmap string NodeProfile) nid n n' :
  m !! nid = Some n → cacheHit n' = cacheHit n →
  size (filter is_resolved (<[nid:=n']> m)) = size (filter is_resolved m).
Proof.
  intros Hm Hn. destruct (cacheHit n) as [b|] eqn:Hc.
  - rewrite map_filter_insert_True.
    + apply map_size_insert_Some. exists n.
      apply map_lookup_filter_Some. split; [done|].
      simpl. by rewrite Hc.
    + simpl. by rewrite Hn.
  - rewrite map_filter_insert_not'; [done| |].
    + simpl. rewrite Hn. by intros [? ?].
    + intros y Hy. simplify_eq. simpl.
      rewrite Hc. by intros [? ?].
Qed.

Lemma resolved_insert_resolve (m : gmap string NodeProfile) nid n n' :
  m !! nid = Some n → cacheHit n = None → is_Some (cacheHit n') →
  size (filter is_resolved (<[nid:=n']> m))
    = S (size (filter is_resolved m)).
Proof.
  intros Hm Hc Hn. rewrite map_filter_insert_True by done.
  apply map_size_insert_None. apply map_lookup_filter_None_2. right.
  intros y Hy. simplify_eq. simpl.
  rewrite Hc. by intros [? ?].
Qed.

Lemma run_snoc es ev : run (es ++ [ev]) = ingest (run es) ev.
Proof. unfold run, run_from. by rewrite foldl_app. Qed.

Lemma seen_after_snoc es ev :
  seen_after (es ++ [ev]) = note (seen_after es) ev.
Proof. unfold seen_after. by rewrite foldl_app. Qed.

Lemma well_formed_from_app sn es1 es2 :
  well_formed_from sn (es1 ++ es2)
    = well_formed_from sn es1 && well_formed_from (foldl note sn es1) es2.
Proof.
  revert sn. induction es1 as [|ev es1 IH]; intros sn; simpl; [done|].
  by rewrite IH, andb_assoc.
Qed.

Lemma well_formed_snoc es ev :
  well_formed (es ++ [ev]) = true →
  well_formed es = true ∧ event_ok (seen_after es) ev = true.
Proof.
  unfold well_formed. rewrite well_formed_from_app. simpl.
  rewrite andb_true_r. intros H. by apply andb_true_iff in H.
Qed.

Lemma well_formed_prefix es pre :
  well_formed es = true → pre `prefix_of` es → well_formed pre = true.
Proof.
  intros Hwf [suffix ->]. unfold well_formed in *.
  rewrite well_formed_from_app in Hwf. by apply andb_true_iff in Hwf as [? _].
Qed.

Lemma observed_vram_app pid es1 es2 :
  observed_vram pid (es1 ++ es2)
    = (observed_vram pid es1 ++ observed_vram pid es2)%list.
Proof.
  induction es1 as [|[] es1 IH]; simpl; [done|done| |done].
  case_decide; simpl; by rewrite IH.
Qed.

Lemma observed_ram_app pid es1 es2 :
  observed_ram pid (es1 ++ es2)
    = (observed_ram pid es1 ++ observed_ram pid es2)%list.
Proof.
  induction es1 as [|[] es1 IH]; simpl; [done|done| |done].
  case_decide; simpl; by rewrite IH.
Qed.

Lemma maximum_snoc (l : list N) (x : N) :
  maximum (l ++ [x]) = N.max (maximum l) x.
Proof.
  unfold maximum. induction l as [|y l IH]; simpl; [lia|]. rewrite IH. lia.
Qed.

(** *** One accepted update keeps a profile's invariants *)

Lemma start_keeps w nid ntype (t : Z) (vb rb : N) :
  nodes w !! nid = None → counted w → peaks_sound w →
  let w' := onNodeStart w nid ntype t vb rb in
  counted w' ∧ peaks_sound w'
  ∧ totalVramPeak w' = totalVramPeak w ∧ totalRamPeak w' = totalRamPeak w.
Proof.
  intros Hfresh Hc (Hb & Hz & Hav & Har). simpl.
  unfold peaks_sound, vram_attained, ram_attained in *.
  split; [|split; [split; [|split; [|split]]|split; lia]].
  - unfold counted, resolved_nodes in *. simpl.
    by rewrite resolved_insert_fresh.
  - intros k n. simpl. rewrite lookup_insert_Some.
    intros [[_ <-]|[_ Hk]]; simpl; [lia|].
    destruct (Hb k n Hk). lia.
  - intros k n. simpl. rewrite lookup_insert_Some.
    intros [[_ <-]|[_ Hk]]; simpl; [done|]. by apply (Hz k).
  - simpl. rewrite N.max_0_r.
    destruct Hav as [?|(k & n & Hk & Hn)]; [by left|right].
    exists k, n. split; [|done]. rewrite lookup_insert_ne; [done|].
    intros <-. congruence.
  - simpl. rewrite N.max_0_r.
    destruct Har as [?|(k & n & Hk & Hn)]; [by left|right].
    exists k, n. split; [|done]. rewrite lookup_insert_ne; [done|].
    intros <-. congruence.
Qed.

Lemma end_keeps w nid n (t : Z) (va ra : N) (err : option string) :
  nodes w !! nid = Some n → nodeId n = nid → np_endTime n = None →
  counted w → peaks_sound w →
  let w' := update_node w (close_node n t va ra err) in
  counted w' ∧ peaks_sound w'
  ∧ totalVramPeak w' = N.max (totalVramPeak w) va
  ∧ totalRamPeak w' = N.max (totalRamPeak w) ra.
Proof.
  intros Hn Hid Hopen Hc (Hb & Hz & Hav & Har). simpl.
  destruct (Hz nid n Hn Hopen) as [Hzv Hzr].
  unfold peaks_sound, vram_attained, ram_attained in *.
  split; [|split; [split; [|split; [|split]]|done]].
  - unfold counted, resolved_nodes in *. simpl. rewrite Hid.
    by rewrite (resolved_insert_same _ _ n).
  - intros k m. simpl. rewrite lookup_insert_Some.
    intros [[_ <-]|[_ Hk]]; simpl; [lia|].
    destruct (Hb k m Hk). lia.
  - intros k m. simpl. rewrite lookup_insert_Some.
    intros [[_ <-]|[_ Hk]]; simpl; [done|]. by apply (Hz k).
  - simpl. rewrite Hid.
    destruct (N.max_spec (totalVramPeak w) va) as [[_ ->]|[Hlt ->]].
    + right. eexists nid, _. by rewrite lookup_insert_eq.
    + destruct Hav as [?|(k & m & Hk & Hm)]; [by left|].
      destruct (decide (k = nodeId n)) as [->|Hne].
      * left. simplify_eq. congruence.
      * right. exists k, m. rewrite lookup_insert_ne by congruence. done.
  - simpl. rewrite Hid.
    destruct (N.max_spec (totalRamPeak w) ra) as [[_ ->]|[Hlt ->]].
    + right. eexists nid, _. by rewrite lookup_insert_eq.
    + destruct Har as [?|(k & m & Hk & Hm)]; [by left|].
      destruct (decide (k = nodeId n)) as [->|Hne].
      * left. simplify_eq. congruence.
      * right. exists k, m. rewrite lookup_insert_ne by congruence. done.
Qed.

Lemma resolve_keeps w nid n (hit : bool) :
  nodes w !! nid = Some n → nodeId n = nid → cacheHit n = None →
  counted w → peaks_sound w →
  let w' := count_cache (update_node w (resolve_node n hit)) hit in
  counted w' ∧ peaks_sound w'
  ∧ totalVramPeak w' = totalVramPeak w ∧ totalRamPeak w' = totalRamPeak w.
Proof.
  intros Hn Hid Hnone Hc (Hb & Hz & Hav & Har).
  destruct (Hb nid n Hn) as [Hv Hr]. simpl.
  unfold peaks_sound, vram_attained, ram_attained in *.
  split; [|split; [split; [|split; [|split]]|split; lia]].
  - unfold counted, resolved_nodes in *. simpl. rewrite Hid.
    rewrite (resolved_insert_resolve _ _ n) by (simpl; eauto).
    destruct hit; lia.
  - intros k m. simpl. rewrite lookup_insert_Some.
    intros [[_ <-]|[_ Hk]]; simpl; [lia|].
    destruct (Hb k m Hk). lia.
  - intros k m. simpl. rewrite lookup_insert_Some.
    intros [[_ <-]|[_ Hk]]; simpl; [by apply (Hz nid)|]. by apply (Hz k).
  - simpl. rewrite Hid, N.max_l by done.
    destruct Hav as [?|(k & m & Hk & Hm)]; [by left|right].
    destruct (decide (k = nid)) as [->|Hne].
    + simplify_eq. eexists _, _. split; [apply lookup_insert_eq|done].
    + exists k, m. rewrite lookup_insert_ne by congruence. done.
  - simpl. rewrite Hid, N.max_l by done.
    destruct Har as [?|(k & m & Hk & Hm)]; [by left|right].
    destruct (decide (k = nid)) as [->|Hne].
    + simplify_eq. eexists _, _. split; [apply lookup_insert_eq|done].
    + exists k, m. rewrite lookup_insert_ne by congruence. done.
Qed.

(** *** One well-formed event keeps the invariant of the run *)

Lemma nodes_of_store s pid w pid' :
  nodes_of (store_workflow s pid w) pid'
    = if decide (pid' = pid) then nodes w else nodes_of s pid'.
Proof.
  unfold nodes_of, store_workflow; simpl. case_decide.
  - subst. by rewrite lookup_insert_eq.
  - by rewrite lookup_insert_ne.
Qed.

Lemma nodes_of_Some s pid nid n :
  nodes_of s pid !! nid = Some n →
  ∃ w, inFlight s !! pid = Some w ∧ nodes w !! nid = Some n.
Proof.
  unfold nodes_of. destruct (inFlight s !! pid) as [w|]; simpl.
  - eauto.
  - by rewrite lookup_empty.
Qed.

Lemma coherent_update sn sn' s pid nid n' (w' : WorkflowProfile) :
  coherent sn s →
  nodes w' = <[nid := n']> (nodes_of s pid) →
  nodeId n' = nid →
  (∀ x, x ∈ started sn' ↔ x = (pid, nid) ∨ x ∈ started sn) →
  ((pid, nid) ∈ ended sn' ↔ is_Some (np_endTime n')) →
  (∀ x, x ≠ (pid, nid) → (x ∈ ended sn' ↔ x ∈ ended sn)) →
  ((pid, nid) ∈ resolved sn' ↔ is_Some (cacheHit n')) →
  (∀ x, x ≠ (pid, nid) → (x ∈ resolved sn' ↔ x ∈ resolved sn)) →
  coherent sn' (store_workflow s pid w').
Proof.
  intros Hco Hnodes Hid Hst Hen Hen' Hre Hre' pid' nid'.
  destruct (Hco pid' nid') as (Hsub & Hiff & Hnode).
  rewrite nodes_of_store.
  destruct (decide ((pid', nid') = (pid, nid))) as [Heq|Hne].
  - injection Heq as -> ->. rewrite decide_True by done.
    rewrite Hnodes, lookup_insert_eq. split; [|split].
    + intros _. apply Hst. by left.
    + split; [eauto|]. intros _. apply Hst. by left.
    + intros n [= <-]. done.
  - rewrite (Hst (pid', nid')), (Hen' _ Hne), (Hre' _ Hne).
    assert (Hlook : (if decide (pid' = pid) then nodes w' else nodes_of s pid')
                      !! nid' = nodes_of s pid' !! nid').
    { case_decide; [|done]. subst. rewrite Hnodes.
      apply lookup_insert_ne. congruence. }
    rewrite Hlook. split; [tauto|]. split.
    + rewrite <- Hiff. split; [|tauto]. intros [?|?]; [done|done].
    + intros n Hn. destruct (Hnode n Hn) as (? & ? & ?).
      rewrite (Hen' _ Hne), (Hre' _ Hne). done.
Qed.

Lemma current_nodes s pid (t : Z) :
  nodes (default (new_workflow pid t) (inFlight s !! pid)) = nodes_of s pid.
Proof. unfold nodes_of. by destruct (inFlight s !! pid). Qed.

Lemma observed_vram_snoc pid es ev :
  maximum (observed_vram pid (es ++ [ev])) =
    match ev with
    | NodeEnd p _ _ va _ _ =>
        if decide (p = pid) then N.max (maximum (observed_vram pid es)) va
        else maximum (observed_vram pid es)
    | _ => maximum (observed_vram pid es)
    end.
Proof.
  rewrite observed_vram_app. destruct ev; simpl; rewrite ?app_nil_r; try done.
  case_decide; [apply maximum_snoc|by rewrite app_nil_r].
Qed.

Lemma observed_ram_snoc pid es ev :
  maximum (observed_ram pid (es ++ [ev])) =
    match ev with
    | NodeEnd p _ _ _ ra _ =>
        if decide (p = pid) then N.max (maximum (observed_ram pid es)) ra
        else maximum (observed_ram pid es)
    | _ => maximum (observed_ram pid es)
    end.
Proof.
  rewrite observed_ram_app. destruct ev; simpl; rewrite ?app_nil_r; try done.
  case_decide; [apply maximum_snoc|by rewrite app_nil_r].
Qed.

Lemma run_inv_nil : run_inv [].
Proof.
  split.
  - intros pid nid. unfold seen_after, nodes_of; simpl.
    rewrite lookup_empty; simpl. rewrite lookup_empty.
    split; [intros [H|H]; by apply not_elem_of_empty in H|]. split; [|done].
    split; [intros H; by apply not_elem_of_empty in H|]. by intros [? ?].
  - intros pid w. unfold run; simpl. by rewrite lookup_empty.
  - done.
Qed.

(** The profile a start event works on satisfies the profile invariants,
    whether it was in flight or has just been created. *)
Lemma current_profile_inv es pid (t : Z) :
  run_inv es →
  let w := default (new_workflow pid t) (inFlight (run es) !! pid) in
  counted w ∧ peaks_sound w
  ∧ totalVramPeak w = maximum (observed_vram pid es)
  ∧ totalRamPeak w = maximum (observed_ram pid es).
Proof.
  intros [_ Hprof Habs]. simpl.
  destruct (inFlight (run es) !! pid) as [w|] eqn:Hw; simpl.
  - by apply Hprof.
  - destruct (Habs pid Hw) as [-> ->]. split; [|split; [|done]].
    + unfold counted, resolved_nodes; simpl.
      by rewrite map_filter_empty, map_size_empty.
    + split; [|split; [|split; by left]].
      * intros nid n. simpl. by rewrite lookup_empty.
      * intros nid n. simpl. by rewrite lookup_empty.
Qed.

Lemma run_inv_start es pid nid ntype (t : Z) (vb rb : N) :
  run_inv es →
  (pid, nid) ∉ started (seen_after es) →
  run_inv (es ++ [NodeStart pid nid ntype t vb rb]).
Proof.
  intros Hinv Hfresh.
  pose proof (current_profile_inv es pid t Hinv) as Hcur.
  destruct Hinv as [Hco Hprof Habs]. simpl in Hcur.
  set (w0 := default (new_workflow pid t) (inFlight (run es) !! pid)) in *.
  assert (Hnone : nodes w0 !! nid = None).
  { unfold w0. rewrite current_nodes. apply eq_None_not_Some.
    intros Hsome. apply Hfresh. by apply (Hco pid nid). }
  assert (Hsub : (pid, nid) ∈ ended (seen_after es)
                 ∨ (pid, nid) ∈ resolved (seen_after es) → False).
  { intros Hin. apply Hfresh. by apply (proj1 (Hco pid nid)). }
  destruct Hcur as (Hc & Hb & Hv & Hr).
  destruct (start_keeps w0 nid ntype t vb rb Hnone Hc Hb)
    as (Hc' & Hb' & Hv' & Hr').
  assert (Hrun : run (es ++ [NodeStart pid nid ntype t vb rb])
                 = store_workflow (run es) pid (onNodeStart w0 nid ntype t vb rb)).
  { by rewrite run_snoc. }
  split.
  - rewrite Hrun, seen_after_snoc.
    eapply (coherent_update _ _ _ pid nid (open_node nid ntype t vb rb));
      [exact Hco| |done|simpl..].
    + simpl. unfold w0. by rewrite current_nodes.
    + intros x. rewrite elem_of_union, elem_of_singleton. done.
    + split; [|by intros [? ?]]. intros Hin. exfalso. apply Hsub. by left.
    + done.
    + split; [|by intros [? ?]]. intros Hin. exfalso. apply Hsub. by right.
    + done.
  - intros pid' w. rewrite Hrun, observed_vram_snoc, observed_ram_snoc.
    unfold store_workflow; simpl.
    destruct (decide (pid' = pid)) as [->|Hne].
    + rewrite lookup_insert_eq. intros [= <-].
      rewrite Hv', Hr'. done.
    + rewrite lookup_insert_ne by done. apply Hprof.
  - intros pid'. rewrite Hrun, !observed_vram_app, !observed_ram_app.
    unfold store_workflow; simpl. rewrite !app_nil_r.
    destruct (decide (pid' = pid)) as [->|Hne].
    + by rewrite lookup_insert_eq.
    + rewrite lookup_insert_ne by done. apply Habs.
Qed.

(** After an event for run [pid] that stores [w'] there, the other runs
    are unchanged. *)
Lemma run_inv_store es ev pid (w' : WorkflowProfile) :
  run_inv es →
  event_promptId ev = pid →
  run (es ++ [ev]) = store_workflow (run es) pid w' →
  coherent (seen_after (es ++ [ev])) (run (es ++ [ev])) →
  (counted w' ∧ peaks_sound w'
   ∧ totalVramPeak w' = maximum (observed_vram pid (es ++ [ev]))
   ∧ totalRamPeak w' = maximum (observed_ram pid (es ++ [ev]))) →
  run_inv (es ++ [ev]).
Proof.
  intros [Hco Hprof Habs] Hpid Hrun Hco' Hw'. split; [done| |].
  - intros pid' w. rewrite Hrun. unfold store_workflow; simpl.
    destruct (decide (pid' = pid)) as [->|Hne].
    + rewrite lookup_insert_eq. by intros [= <-].
    + rewrite lookup_insert_ne by done.
      rewrite observed_vram_snoc, observed_ram_snoc.
      destruct ev; simpl in Hpid; subst; try apply Hprof.
      rewrite !decide_False by done. apply Hprof.
  - intros pid'. rewrite Hrun. unfold store_workflow; simpl.
    destruct (decide (pid' = pid)) as [->|Hne].
    + by rewrite lookup_insert_eq.
    + rewrite lookup_insert_ne by done.
      rewrite observed_vram_app, observed_ram_app.
      intros Hnone. destruct (Habs pid' Hnone) as [-> ->].
      destruct ev; simpl in Hpid; subst; simpl; try done.
      by rewrite !decide_False by done.
Qed.

Lemma run_inv_end es pid nid (t : Z) (va ra : N) (err : option string) :
  run_inv es →
  (pid, nid) ∈ started (seen_after es) →
  (pid, nid) ∉ ended (seen_after es) →
  run_inv (es ++ [NodeEnd pid nid t va ra err]).
Proof.
  intros Hinv Hst Hen. pose proof Hinv as [Hco Hprof Habs].
  destruct (Hco pid nid) as (_ & Hiff & Hnode).
  apply Hiff in Hst as [n Hn]. destruct (Hnode n Hn) as (Hid & Hended & Hres).
  destruct (nodes_of_Some _ _ _ _ Hn) as (w & Hw & Hwn).
  assert (Hopen : np_endTime n = None).
  { apply eq_None_not_Some. intros Hsome. by apply Hen, Hended. }
  destruct (Hprof pid w Hw) as (Hc & Hb & Hv & Hr).
  destruct (end_keeps w nid n t va ra err Hwn Hid Hopen Hc Hb)
    as (Hc' & Hb' & Hv' & Hr').
  assert (Hrun : run (es ++ [NodeEnd pid nid t va ra err])
    = store_workflow (run es) pid (update_node w (close_node n t va ra err))).
  { rewrite run_snoc. simpl. rewrite Hw. unfold onNodeEnd.
    by rewrite Hwn, Hopen. }
  eapply run_inv_store; [done|done|exact Hrun| |].
  - rewrite Hrun, seen_after_snoc.
    eapply (coherent_update _ _ _ pid nid (close_node n t va ra err));
      [exact Hco| |done|simpl..].
    + simpl. rewrite Hid. f_equal. unfold nodes_of. by rewrite Hw.
    + intros x. split; [tauto|]. intros [->|?]; [|done].
      apply Hiff. by exists n.
    + split; [by eexists|]. intros _.
      rewrite elem_of_union, elem_of_singleton. by left.
    + intros x Hx. rewrite elem_of_union, elem_of_singleton. tauto.
    + done.
    + done.
  - rewrite observed_vram_snoc, observed_ram_snoc, !decide_True by done.
    rewrite Hv', Hr', Hv, Hr. done.
Qed.

Lemma run_inv_resolve es pid nid (hit : bool) :
  run_inv es →
  (pid, nid) ∈ started (seen_after es) →
  (pid, nid) ∉ resolved (seen_after es) →
  run_inv (es ++ [CacheResolved pid nid hit]).
Proof.
  intros Hinv Hst Hre. pose proof Hinv as [Hco Hprof Habs].
  destruct (Hco pid nid) as (_ & Hiff & Hnode).
  apply Hiff in Hst as [n Hn]. destruct (Hnode n Hn) as (Hid & Hended & Hres).
  destruct (nodes_of_Some _ _ _ _ Hn) as (w & Hw & Hwn).
  assert (Hnone : cacheHit n = None).
  { apply eq_None_not_Some. intros Hsome. by apply Hre, Hres. }
  destruct (Hprof pid w Hw) as (Hc & Hb & Hv & Hr).
  destruct (resolve_keeps w nid n hit Hwn Hid Hnone Hc Hb)
    as (Hc' & Hb' & Hv' & Hr').
  assert (Hrun : run (es ++ [CacheResolved pid nid hit])
    = store_workflow (run es) pid
        (count_cache (update_node w (resolve_node n hit)) hit)).
  { rewrite run_snoc. simpl. rewrite Hw. unfold onCacheResolved.
    by rewrite Hwn, Hnone. }
  eapply run_inv_store; [done|done|exact Hrun| |].
  - rewrite Hrun, seen_after_snoc.
    eapply (coherent_update _ _ _ pid nid (resolve_node n hit));
      [exact Hco| |done|simpl..].
    + simpl. rewrite Hid. f_equal. unfold nodes_of. by rewrite Hw.
    + intros x. split; [tauto|]. intros [->|?]; [|done].
      apply Hiff. by exists n.
    + done.
    + done.
    + split; [by eexists|]. intros _.
      rewrite elem_of_union, elem_of_singleton. by left.
    + intros x Hx. rewrite elem_of_union, elem_of_singleton. tauto.
  - rewrite observed_vram_snoc, observed_ram_snoc.
    rewrite Hv', Hr', Hv, Hr. done.
Qed.

(** Every well-formed sequence of events keeps the invariant. *)
Lemma well_formed_run_inv es : well_formed es = true → run_inv es.
Proof.
  induction es as [|ev es IH] using rev_ind; [intros _; apply run_inv_nil|].
  intros Hwf. apply well_formed_snoc in Hwf as [Hwf Hok].
  specialize (IH Hwf). destruct ev; simpl in Hok.
  - apply run_inv_start; [done|]. by apply bool_decide_eq_true in Hok.
  - apply bool_decide_eq_true in Hok as [? ?]. by apply run_inv_end.
  - apply bool_decide_eq_true in Hok as [? ?]. by apply run_inv_resolve.
Qed.

(** Whatever the event, the peaks of a profile in flight do not go down. *)
Lemma ingest_peaks_monotone s ev pid w :
  inFlight s !! pid = Some w →
  ∃ w', inFlight (ingest s ev) !! pid = Some w'
        ∧ (totalVramPeak w ≤ totalVramPeak w')%N
        ∧ (totalRamPeak w ≤ totalRamPeak w')%N.
Proof.
  intros Hw.
  assert (Hkeep : ∃ w', inFlight s !! pid = Some w'
            ∧ (totalVramPeak w ≤ totalVramPeak w')%N
            ∧ (totalRamPeak w ≤ totalRamPeak w')%N).
  { exists w. split; [done|lia]. }
  assert (Hother : ∀ p w1, p ≠ pid →
            ∃ w', inFlight (store_workflow s p w1) !! pid = Some w'
            ∧ (totalVramPeak w ≤ totalVramPeak w')%N
            ∧ (totalRamPeak w ≤ totalRamPeak w')%N).
  { intros p w1 Hne. exists w. simpl. rewrite lookup_insert_ne by done.
    split; [done|lia]. }
  assert (Hsame : ∀ w1, (totalVramPeak w ≤ totalVramPeak w1)%N →
            (totalRamPeak w ≤ totalRamPeak w1)%N →
            ∃ w', inFlight (store_workflow s pid w1) !! pid = Some w'
            ∧ (totalVramPeak w ≤ totalVramPeak w')%N
            ∧ (totalRamPeak w ≤ totalRamPeak w')%N).
  { intros w1 ? ?. exists w1. simpl. by rewrite lookup_insert_eq. }
  destruct ev as [p nid ntype t vb rb|p nid t va ra err|p nid hit]; simpl.
  - destruct (decide (p = pid)) as [->|Hne]; [|by apply Hother].
    rewrite Hw. simpl. apply Hsame; simpl; lia.
  - destruct (decide (p = pid)) as [->|Hne].
    + rewrite Hw. unfold onNodeEnd.
      destruct (nodes w !! nid) as [n|]; [|exact Hkeep].
      destruct (np_endTime n); [exact Hkeep|].
      simpl. apply Hsame; simpl; lia.
    + destruct (inFlight s !! p) as [w1|]; [|exact Hkeep].
      destruct (onNodeEnd w1 nid t va ra err); simpl;
        [exact Hkeep|by apply Hother].
  - destruct (decide (p = pid)) as [->|Hne].
    + rewrite Hw. unfold onCacheResolved.
      destruct (nodes w !! nid) as [n|]; [|exact Hkeep].
      destruct (cacheHit n); [exact Hkeep|].
      simpl. apply Hsame; simpl; lia.
    + destruct (inFlight s !! p) as [w1|]; [|exact Hkeep].
      destruct (onCacheResolved w1 nid hit); simpl;
        [exact Hkeep|by apply Hother].
Qed.

(** C5: for every well-formed sequence of start, end and cacheResolved
    events and at every point of it (after every prefix), each workflow
    profile in flight has [cacheHits + cacheMisses] equal to the number of
    its node profiles whose cache outcome has resolved. *)
Theorem cache_counters_match_resolved es pre pid w :
  well_formed es = true → pre `prefix_of` es →
  inFlight (run pre) !! pid = Some w →
  (cacheHits w + cacheMisses w)%nat = resolved_nodes w.
Proof.
  intros Hwf Hpre Hw.
  pose proof (well_formed_run_inv pre (well_formed_prefix _ _ Hwf Hpre))
    as [_ Hprof _].
  by destruct (Hprof pid w Hw) as (Hc & _).
Qed.

(** *** The peaks on arbitrary event sequences *)

Lemma seen_vram_from_snoc s pid es ev :
  seen_vram_from s pid (es ++ [ev])
    = (seen_vram_from s pid es ++ vram_reading (run_from s es) pid ev)%list.
Proof.
  revert s. induction es as [|e es IH]; intros s; simpl.
  - by rewrite app_nil_r.
  - by rewrite IH, app_assoc.
Qed.

Lemma seen_ram_from_snoc s pid es ev :
  seen_ram_from s pid (es ++ [ev])
    = (seen_ram_from s pid es ++ ram_reading (run_from s es) pid ev)%list.
Proof.
  revert s. induction es as [|e es IH]; intros s; simpl.
  - by rewrite app_nil_r.
  - by rewrite IH, app_assoc.
Qed.

Lemma maximum_app_reading (l r : list N) :
  maximum (l ++ r) = N.max (maximum l) (maximum r).
Proof.
  unfold maximum. induction l as [|y l IH]; simpl; [lia|]. rewrite IH. lia.
Qed.

Lemma update_node_within w n :
  within_peaks w → within_peaks (update_node w n).
Proof.
  intros Hb k m. simpl. rewrite lookup_insert_Some.
  intros [[_ <-]|[_ Hk]]; simpl; [lia|]. destruct (Hb k m Hk). lia.
Qed.

Lemma peaks_inv_keep es ev :
  peaks_inv es →
  inFlight (run (es ++ [ev])) = inFlight (run es) →
  applied (run es) ev = false →
  peaks_inv (es ++ [ev]).
Proof.
  intros Hinv Hrun Happ pid. specialize (Hinv pid).
  unfold seen_vram, seen_ram. rewrite seen_vram_from_snoc, seen_ram_from_snoc.
  fold (run es) (seen_vram pid es) (seen_ram pid es).
  assert (Hv : vram_reading (run es) pid ev = []).
  { destruct ev; simpl; try done. simpl in Happ. rewrite Happ.
    by rewrite andb_false_r. }
  assert (Hr : ram_reading (run es) pid ev = []).
  { destruct ev; simpl; try done. simpl in Happ. rewrite Happ.
    by rewrite andb_false_r. }
  rewrite Hv, Hr, !app_nil_r, Hrun. exact Hinv.
Qed.

Lemma peaks_inv_store es ev p (w w' : WorkflowProfile) (rv rr : list N) :
  peaks_inv es →
  event_promptId ev = p →
  run (es ++ [ev]) = store_workflow (run es) p w' →
  (inFlight (run es) !! p = Some w
   ∨ (inFlight (run es) !! p = None
      ∧ totalVramPeak w = 0%N ∧ totalRamPeak w = 0%N)) →
  vram_reading (run es) p ev = rv → ram_reading (run es) p ev = rr →
  within_peaks w' →
  totalVramPeak w' = N.max (totalVramPeak w) (maximum rv) →
  totalRamPeak w' = N.max (totalRamPeak w) (maximum rr) →
  peaks_inv (es ++ [ev]).
Proof.
  intros Hinv Hp Hrun Hw Hrv Hrr Hb' Hv' Hr' pid.
  unfold seen_vram, seen_ram. rewrite seen_vram_from_snoc, seen_ram_from_snoc.
  fold (run es) (seen_vram pid es) (seen_ram pid es).
  rewrite Hrun. unfold store_workflow; simpl.
  destruct (decide (pid = p)) as [->|Hne].
  - rewrite lookup_insert_eq, Hrv, Hrr, !maximum_app_reading.
    specialize (Hinv p). split; [done|].
    destruct Hw as [Hw|(Hw & Hv0 & Hr0)]; rewrite Hw in Hinv.
    + destruct Hinv as (_ & <- & <-). done.
    + destruct Hinv as [-> ->]. rewrite Hv', Hr', Hv0, Hr0. done.
  - rewrite lookup_insert_ne by done.
    assert (Hv : vram_reading (run es) pid ev = []).
    { destruct ev; simpl in *; try done. subst.
      by rewrite bool_decide_eq_false_2. }
    assert (Hr : ram_reading (run es) pid ev = []).
    { destruct ev; simpl in *; try done. subst.
      by rewrite bool_decide_eq_false_2. }
    rewrite Hv, Hr, !app_nil_r. apply Hinv.
Qed.

Lemma peaks_inv_start es p nid ntype (t : Z) (vb rb : N) :
  peaks_inv es → peaks_inv (es ++ [NodeStart p nid ntype t vb rb]).
Proof.
  intros IH.
  set (w0 := default (new_workflow p t) (inFlight (run es) !! p)).
  assert (Hrun : run (es ++ [NodeStart p nid ntype t vb rb])
                 = store_workflow (run es) p (onNodeStart w0 nid ntype t vb rb))
    by (by rewrite run_snoc).
  assert (Hw0 : within_peaks w0).
  { unfold w0. destruct (inFlight (run es) !! p) as [w|] eqn:Hw; simpl.
    - specialize (IH p). rewrite Hw in IH. tauto.
    - intros k m. simpl. by rewrite lookup_empty. }
  assert (Hcase : inFlight (run es) !! p = Some w0
                  ∨ (inFlight (run es) !! p = None
                     ∧ totalVramPeak w0 = 0%N ∧ totalRamPeak w0 = 0%N)).
  { unfold w0. destruct (inFlight (run es) !! p) as [w|]; simpl; auto. }
  assert (Hb' : within_peaks (onNodeStart w0 nid ntype t vb rb)).
  { intros k m. simpl. rewrite lookup_insert_Some.
    intros [[_ <-]|[_ Hk]]; simpl; [lia|]. destruct (Hw0 k m Hk). lia. }
  apply (peaks_inv_store es (NodeStart p nid ntype t vb rb) p w0 _ [] []
           IH eq_refl Hrun Hcase eq_refl eq_refl Hb'); simpl; lia.
Qed.

Lemma peaks_inv_end es p nid (t : Z) (va ra : N) (err : option string) :
  peaks_inv es → peaks_inv (es ++ [NodeEnd p nid t va ra err]).
Proof.
  intros IH. pose proof (run_snoc es (NodeEnd p nid t va ra err)) as Hrun.
  simpl in Hrun.
  destruct (inFlight (run es) !! p) as [w|] eqn:Hw;
    [|apply peaks_inv_keep; [done|by rewrite Hrun|simpl; by rewrite Hw]].
  destruct (onNodeEnd w nid t va ra err) as [e|w'] eqn:Hend.
  { apply peaks_inv_keep; [done|by rewrite Hrun|].
    simpl. by rewrite Hw, Hend. }
  assert (Hread : applied (run es) (NodeEnd p nid t va ra err) = true)
    by (simpl; by rewrite Hw, Hend).
  pose proof (IH p) as IHp. rewrite Hw in IHp. destruct IHp as (Hb & _ & _).
  unfold onNodeEnd in Hend.
  destruct (nodes w !! nid) as [n|]; [|done].
  destruct (np_endTime n); [done|]. injection Hend as <-.
  apply (peaks_inv_store es (NodeEnd p nid t va ra err) p w _ [va] [ra]
           IH eq_refl Hrun (or_introl Hw)).
  - unfold vram_reading. by rewrite Hread, bool_decide_eq_true_2.
  - unfold ram_reading. by rewrite Hread, bool_decide_eq_true_2.
  - by apply update_node_within.
  - simpl. lia.
  - simpl. lia.
Qed.

Lemma peaks_inv_resolve es p nid (hit : bool) :
  peaks_inv es → peaks_inv (es ++ [CacheResolved p nid hit]).
Proof.
  intros IH. pose proof (run_snoc es (CacheResolved p nid hit)) as Hrun.
  simpl in Hrun.
  destruct (inFlight (run es) !! p) as [w|] eqn:Hw;
    [|apply peaks_inv_keep; [done|by rewrite Hrun|simpl; by rewrite Hw]].
  destruct (onCacheResolved w nid hit) as [e|w'] eqn:Hres.
  { apply peaks_inv_keep; [done|by rewrite Hrun|].
    simpl. by rewrite Hw, Hres. }
  pose proof (IH p) as IHp. rewrite Hw in IHp. destruct IHp as (Hb & _ & _).
  unfold onCacheResolved in Hres.
  destruct (nodes w !! nid) as [n|] eqn:Hn; [|done].
  destruct (cacheHit n); [done|]. injection Hres as <-.
  destruct (Hb nid n Hn) as [Hv Hr].
  apply (peaks_inv_store es (CacheResolved p nid hit) p w _ [] []
           IH eq_refl Hrun (or_introl Hw) eq_refl eq_refl).
  - intros k m Hk.
    exact (update_node_within w (resolve_node n hit) Hb k m Hk).
  - simpl. lia.
  - simpl. lia.
Qed.

Lemma peaks_inv_all es : peaks_inv es.
Proof.
  induction es as [|ev es IH] using rev_ind.
  { intros pid. unfold run; simpl. by rewrite lookup_empty. }
  destruct ev.
  - by apply peaks_inv_start.
  - by apply peaks_inv_end.
  - by apply peaks_inv_resolve.
Qed.

(** C6: at every point of the life of a workflow profile, after any
    sequence of events whatsoever, its peaks equal the largest [vramAfter]
    (respectively [ramAfter]) its run has taken in so far, that is, carried
    by the end events that were applied to it (0 when there is none); no
    node of the run is above a peak; and no further event, of whatever
    kind, makes a peak smaller.  When the events are well formed, every end
    event of the run is taken in, so the peaks are the maxima over all its
    end events, and a peak above 0 is the reading of one of its nodes. *)
Theorem peaks_are_running_maxima es pid w :
  inFlight (run es) !! pid = Some w →
  totalVramPeak w = maximum (seen_vram pid es)
  ∧ totalRamPeak w = maximum (seen_ram pid es)
  ∧ within_peaks w
  ∧ (∀ ev, ∃ w', inFlight (ingest (run es) ev) !! pid = Some w'
                 ∧ (totalVramPeak w ≤ totalVramPeak w')%N
                 ∧ (totalRamPeak w ≤ totalRamPeak w')%N)
  ∧ (∀ whole, well_formed whole = true → es `prefix_of` whole →
       totalVramPeak w = maximum (observed_vram pid es)
       ∧ totalRamPeak w = maximum (observed_ram pid es)
       ∧ vram_attained w ∧ ram_attained w).
Proof.
  intros Hw. pose proof (peaks_inv_all es pid) as Hinv. rewrite Hw in Hinv.
  destruct Hinv as (Hb & Hv & Hr).
  split; [done|]. split; [done|]. split; [done|]. split.
  - intros ev. by apply ingest_peaks_monotone.
  - intros whole Hwf Hpre.
    pose proof (well_formed_run_inv es (well_formed_prefix _ _ Hwf Hpre))
      as [_ Hprof _].
    destruct (Hprof pid w Hw) as (_ & (_ & _ & Hav & Har) & Hv' & Hr').
    done.
Qed.

(** The scenario of the specification, run through the aggregator. *)
Example scenario_profile :
  well_formed scenario = true
  ∧ ∃ w, inFlight (run scenario) !! "p1" = Some w
      ∧ startTime w = 0 ∧ cacheHits w = 1%nat ∧ cacheMisses w = 0%nat
      ∧ totalVramPeak w = 2000%N ∧ executionOrder w = ["n1"].
Proof.
  split; [by vm_compute|].
  eexists. split; [by vm_compute|]. by vm_compute.
Qed.

(** C5 on the scenario, observed after all three events. *)
Lemma cache_counters_match_resolved_witness :
  well_formed scenario = true
  ∧ scenario `prefix_of` scenario
  ∧ ∃ w, inFlight (run scenario) !! "p1" = Some w
         ∧ (cacheHits w + cacheMisses w)%nat = resolved_nodes w.
Proof.
  assert (Hwf : well_formed scenario = true) by (vm_compute; reflexivity).
  assert (Hpre : scenario `prefix_of` scenario) by (exists []; reflexivity).
  split; [exact Hwf|]. split; [exact Hpre|].
  eexists. split; [vm_compute; reflexivity|].
  apply (cache_counters_match_resolved scenario scenario "p1" _ Hwf Hpre).
  vm_compute; reflexivity.
Defined.

(** C6 on a sequence that is not well formed: the node ends twice, and the
    second end event, which reports 9, is dropped; the peak is the 5 of the
    first. *)
Lemma peaks_are_running_maxima_witness :
  ∃ w, inFlight (run [ NodeStart "p1" "n1" "KSampler" 0 0 0;
                       NodeEnd "p1" "n1" 100 5 0 None;
                       NodeEnd "p1" "n1" 200 9 0 None ]) !! "p1" = Some w
       ∧ totalVramPeak w
         = maximum (seen_vram "p1" [ NodeStart "p1" "n1" "KSampler" 0 0 0;
                                     NodeEnd "p1" "n1" 100 5 0 None;
                                     NodeEnd "p1" "n1" 200 9 0 None ])
       ∧ totalVramPeak w = 5%N.
Proof.
  eexists. split; [vm_compute; reflexivity|]. split.
  - refine (proj1 (peaks_are_running_maxima
                     [ NodeStart "p1" "n1" "KSampler" 0 0 0;
                       NodeEnd "p1" "n1" 100 5 0 None;
                       NodeEnd "p1" "n1" 200 9 0 None ] "p1" _ _)).
    vm_compute; reflexivity.
  - reflexivity.
Defined.

End AggregatorFacts.

(** * Properties of the Running-Average Tracker *)
Section TrackerFacts.

Import Tracker.
Import Aggregator (open_node, close_node, resolve_node).

Lemma average_defined (sum : Z) (n : nat) :
  average sum n
    = Some (if decide (n = 0%nat) then 0%Q
            else (inject_Z sum / inject_Z (Z.of_nat n))%Q).
Proof.
  unfold average. case_decide; [done|]. by destruct n.
Qed.

(** The division is only reached with a divisor that is not zero. *)
Lemma divide_fault (sum : Z) (n : nat) : divide sum n = None ↔ n = 0%nat.
Proof. destruct n; simpl; split; done. Qed.

Local Abbreviation ratio sum n :=
  (inject_Z sum / inject_Z (Z.of_nat n))%Q.

Lemma average_positive (sum : Z) (n : nat) :
  (0 < n)%nat → average sum n = Some (ratio sum n).
Proof. intros Hn. by rewrite average_defined, decide_False by lia. Qed.

Lemma average_zero (sum : Z) : average sum 0 = Some 0%Q.
Proof. reflexivity. Qed.

(** C7: an average query never reaches the division by zero.  For every
    accumulator, the report is defined; each average in it is [sum / count]
    when [count > 0] and zero when [count = 0], where the division itself
    would have faulted.  The same holds for the workflow-level report, and
    the report over all node types is defined for every tracker state. *)
Theorem average_query_total (a : NodeAccumulator) (s : State) :
  (∃ r, node_average a = Some r
      ∧ na_count r = count a
      ∧ ((0 < count a)%nat →
           avg_time r = ratio (total_time a) (count a)
           ∧ avg_vram r = ratio (vram_usage a) (count a)
           ∧ avg_ram r = ratio (ram_usage a) (count a)
           ∧ cache_hit_ratio r = ratio (Z.of_nat (cache_hits a)) (count a))
      ∧ (count a = 0%nat →
           avg_time r = 0%Q ∧ avg_vram r = 0%Q ∧ avg_ram r = 0%Q
           ∧ cache_hit_ratio r = 0%Q
           ∧ divide (total_time a) (count a) = None))
  ∧ (∃ r, getWorkflowAverages s = Some r
      ∧ wa_count r = wf_count (workflow_averages s)
      ∧ ((0 < wf_count (workflow_averages s))%nat →
           wa_avg_time r = ratio (wf_total_time (workflow_averages s))
                                 (wf_count (workflow_averages s))
           ∧ avg_vram_peak r = ratio (vram_peak (workflow_averages s))
                                     (wf_count (workflow_averages s))
           ∧ avg_ram_peak r = ratio (ram_peak (workflow_averages s))
                                    (wf_count (workflow_averages s)))
      ∧ (wf_count (workflow_averages s) = 0%nat →
           wa_avg_time r = 0%Q ∧ avg_vram_peak r = 0%Q
           ∧ avg_ram_peak r = 0%Q))
  ∧ is_Some (getNodeAverages s).
Proof.
  split; [|split].
  - unfold node_average. destruct (count a) as [|k] eqn:Hk.
    + rewrite !average_zero. simpl. eexists. split; [done|]. simpl.
      split; [done|]. split; [lia|done].
    + rewrite !average_positive by lia. simpl. eexists. split; [done|].
      simpl. split; [done|]. split; [done|discriminate].
  - unfold getWorkflowAverages.
    destruct (wf_count (workflow_averages s)) as [|k] eqn:Hk.
    + rewrite !average_zero. simpl. eexists. split; [done|]. simpl.
      split; [done|]. split; [lia|done].
    + rewrite !average_positive by lia. simpl. eexists. split; [done|].
      simpl. split; [done|]. split; [done|discriminate].
  - unfold getNodeAverages.
    apply (map_fold_weak_ind (λ r _, is_Some r)); [by eexists|].
    intros ntype acc m r _ [done Hr]. rewrite Hr. simpl.
    unfold node_average. rewrite !average_defined. simpl. by eexists.
Qed.

(** C7 on the accumulator the scenario of the specification leaves for
    "KSampler": one sample of 100 ms with a cache hit. *)
Lemma average_query_total_witness :
  (0 < count (fold_node empty_node
                (close_node (resolve_node (open_node "n1" "KSampler" 0 1000 0)
                                          true) 100 2000 0 None)))%nat
  ∧ node_average
      (fold_node empty_node
         (close_node (resolve_node (open_node "n1" "KSampler" 0 1000 0) true)
                     100 2000 0 None))
    = Some {| avg_time := ratio 100 1; avg_vram := ratio 1000 1;
              avg_ram := ratio 0 1; na_count := 1;
              cache_hit_ratio := ratio 1 1 |}.
Proof.
  set (a := fold_node empty_node
              (close_node (resolve_node (open_node "n1" "KSampler" 0 1000 0)
                                        true) 100 2000 0 None)).
  assert (Hpos : (0 < count a)%nat) by (simpl; lia).
  split; [exact Hpos|].
  destruct (average_query_total a init) as ((r & Hr & Hn & Hp & _) & _).
  destruct (Hp Hpos) as (Ht & Hv & Hm & Hh).
  rewrite Hr. destruct r; simpl in *. by rewrite Hn, Ht, Hv, Hm, Hh.
Defined.

(** The scenario of the specification, finalized at 100 and folded into a
    fresh tracker: the profile and the averages of "KSampler". *)
Example scenario_averages :
  ∃ w s', Aggregator.finalize (Aggregator.run Aggregator.scenario) "p1" 100
            = inr (w, s')
    ∧ startTime w = 0 ∧ endTime w = Some 100
    ∧ cacheHits w = 1%nat ∧ cacheMisses w = 0%nat ∧ totalVramPeak w = 2000%N
    ∧ ∃ a r, node_averages (record_workflow init w) !! "KSampler" = Some a
        ∧ node_average a = Some r
        ∧ avg_time r = inject_Z 100 ∧ na_count r = 1%nat
        ∧ cache_hit_ratio r = inject_Z 1.
Proof.
  eexists _, _. split; [by vm_compute|]. repeat (split; [by vm_compute|]).
  eexists _, _. split; [by vm_compute|]. split; [by vm_compute|].
  by vm_compute.
Qed.

End TrackerFacts.

(** * Properties of the History Store *)
Section HistoryStoreFacts.

Import HistoryStore.

Variable settings : ProfilerSettings.

Lemma append_splits (archiving : bool) (s : State) (p : WorkflowProfile)
    (now : Z) :
  (entries s ++ [mkEntry p now])%list
    = ((append settings archiving s p now).2
       ++ entries (append settings archiving s p now).1)%list.
Proof. unfold append; simpl. by rewrite take_drop. Qed.

Lemma append_bounded (archiving : bool) (s : State) (p : WorkflowProfile)
    (now : Z) :
  (length (entries (append settings archiving s p now).1)
     ≤ maxDataPoints settings)%nat.
Proof. unfold append; simpl. rewrite length_drop. lia. Qed.

Lemma append_all_snoc archiving s ps (pn : WorkflowProfile * Z) :
  append_all settings archiving s (ps ++ [pn])
    = (append settings archiving (append_all settings archiving s ps)
         pn.1 pn.2).1.
Proof. unfold append_all. by rewrite foldl_app. Qed.

(** With archiving on, nothing is lost: what was handed to the archiver,
    followed by what is retained, is everything that entered the store, in
    order of arrival. *)
Lemma append_all_conserves (s : State) (ps : list (WorkflowProfile * Z)) :
  let s' := append_all settings true s ps in
  (offered s' ++ entries s')%list
    = (offered s ++ entries s ++ map (λ pn, mkEntry pn.1 pn.2) ps)%list.
Proof.
  induction ps as [|pn ps IH] using rev_ind; simpl.
  - by rewrite app_nil_r.
  - rewrite append_all_snoc, map_app. simpl in *.
    rewrite <- app_assoc, take_drop.
    rewrite (app_assoc (offered _)), IH. by rewrite <- !app_assoc.
Qed.

(** C8: after any sequence of appends the store holds at most
    [maxDataPoints] entries; each append evicts exactly the oldest entries
    held at that moment, in order, as many as exceed the bound; and over a
    whole run with archiving on, the evicted entries followed by the
    retained ones are the appended entries in arrival order. *)
Theorem history_bounded_oldest_evicted :
  (∀ archiving ps,
      (length (entries (append_all settings archiving init ps))
         ≤ maxDataPoints settings)%nat)
  ∧ (∀ archiving s p now,
        let r := append settings archiving s p now in
        (entries s ++ [mkEntry p now])%list = (r.2 ++ entries r.1)%list
        ∧ length r.2
            = (length (entries s) + 1 - maxDataPoints settings)%nat
        ∧ (length (entries r.1) ≤ maxDataPoints settings)%nat
        ∧ offered r.1
            = if archiving then (offered s ++ r.2)%list else offered s)
  ∧ (∀ ps,
        let s' := append_all settings true init ps in
        (offered s' ++ entries s')%list = map (λ pn, mkEntry pn.1 pn.2) ps).
Proof.
  split; [|split].
  - intros archiving ps. destruct ps as [|pn ps _] using rev_ind.
    + simpl. lia.
    + rewrite append_all_snoc. apply append_bounded.
  - intros archiving s p now. simpl.
    split; [by rewrite take_drop|]. split; [|split; [|done]].
    + rewrite length_take, length_app. simpl. lia.
    + rewrite length_drop. lia.
  - intros ps. apply (append_all_conserves init ps).
Qed.

End HistoryStoreFacts.

(** * Further properties of [filterHistoryByTimeRange] *)
Section FilterLaws.

Import TimeRange.

Implicit Types (history : list WorkflowProfile) (timeRange : string) (now : Z).

Lemma list_filter_all {A} (l : list A) : List.filter (λ _, true) l = l.
Proof. induction l as [|x l IH]; simpl; [done|]. by rewrite IH. Qed.

(** The filter as one test applied to every entry, the token 'all'
    accepting everything. *)
Lemma filter_as_list_filter history timeRange now :
  filterHistoryByTimeRange history timeRange now
    = List.filter
        (λ item, if decide (timeRange = "all") then true
                 else Js.gt (Js.Finite (startTime item)) (cutoff timeRange now))
        history.
Proof.
  unfold filterHistoryByTimeRange. case_decide.
  - by rewrite list_filter_all.
  - apply array_filter_is_filter.
Qed.

Lemma list_filter_sublist_mono {A} (f g : A → bool) (l : list A) :
  (∀ x, x ∈ l → f x = true → g x = true) →
  sublist (List.filter f l) (List.filter g l).
Proof.
  induction l as [|x l IH]; intros Himp; simpl; [constructor|].
  assert (IH' : sublist (List.filter f l) (List.filter g l)).
  { apply IH. intros y Hy. apply Himp. by right. }
  destruct (f x) eqn:Hf.
  - rewrite (Himp x) by (done || left). by constructor.
  - destruct (g x); [by constructor|done].
Qed.

Lemma list_filter_narrow {A} (f g : A → bool) (l : list A) :
  (∀ x, x ∈ l → f x = true → g x = true) →
  List.filter f (List.filter g l) = List.filter f l
  ∧ List.filter g (List.filter f l) = List.filter f l.
Proof.
  induction l as [|x l IH]; intros Himp; simpl; [done|].
  destruct IH as [IH1 IH2]; [intros y Hy; apply Himp; by right|].
  destruct (f x) eqn:Hf.
  - rewrite (Himp x) by (done || left). simpl. rewrite Hf, (Himp x), IH1, IH2
      by (done || left). done.
  - destruct (g x) eqn:Hg; simpl; rewrite ?Hf; done.
Qed.

Lemma list_filter_id_iff {A} (f : A → bool) (l : list A) :
  List.filter f l = l ↔ ∀ x, x ∈ l → f x = true.
Proof.
  induction l as [|x l IH]; simpl.
  - split; [intros _ y Hy; by apply elem_of_nil in Hy|done].
  - destruct (f x) eqn:Hf.
    + split.
      * intros [= Heq] y Hy. apply elem_of_cons in Hy as [->|Hy]; [done|].
        by apply IH.
      * intros Hall. f_equal. apply IH. intros y Hy. apply Hall. by right.
    + split.
      * intros Heq. exfalso.
        assert (Hlen : length (List.filter f l) = S (length l))
          by (by rewrite Heq).
        pose proof (filter_length_le f l). lia.
      * intros Hall. rewrite (Hall x) in Hf by left. discriminate.
Qed.

Lemma list_filter_nil_iff {A} (f : A → bool) (l : list A) :
  List.filter f l = [] ↔ ∀ x, x ∈ l → f x = false.
Proof.
  induction l as [|x l IH]; simpl.
  - split; [intros _ y Hy; by apply elem_of_nil in Hy|done].
  - destruct (f x) eqn:Hf.
    + split; [done|]. intros Hall. rewrite (Hall x) in Hf by left.
      discriminate.
    + rewrite IH. split.
      * intros Hall y Hy. apply elem_of_cons in Hy as [->|Hy]; auto.
      * intros Hall y Hy. apply Hall. by right.
Qed.

(** Whatever the token, the cut-off is the clock minus a fixed duration
    that is not negative, or it is NaN whatever the clock. *)
Lemma cutoff_shape timeRange :
  (∃ d, 0 ≤ d ≤ 604800000 ∧ ∀ now, cutoff timeRange now = Js.Finite (now - d))
  ∨ (∀ now, cutoff timeRange now = Js.NaN).
Proof.
  destruct (Js.own_property ranges timeRange) as [d|] eqn:Hown.
  - left. exists d. apply own_property_windows in Hown. split.
    + unfold windows in Hown. rewrite !elem_of_cons, elem_of_nil in Hown.
      destruct Hown as [H|[H|[H|[H|[]]]]]; injection H as -> ->; lia.
    + intros now. by apply cutoff_window.
  - destruct (Js.inherited timeRange) eqn:Hinh.
    + right. intros now. by apply cutoff_inherited.
    + left. exists 0. split; [lia|]. intros now.
      rewrite (cutoff_fallback _ now Hown Hinh). f_equal. lia.
Qed.

Lemma inherited_no_own timeRange :
  Js.inherited timeRange = true →
  Js.own_property ranges timeRange = None ∧ timeRange ≠ "all".
Proof.
  intros Hinh. split.
  - rewrite own_property_ranges.
    repeat (case_decide; [subst; vm_compute in Hinh; discriminate|]). done.
  - intros ->. vm_compute in Hinh. discriminate.
Qed.

(** A window token filters with its duration. *)
Lemma filter_window history timeRange (d : Z) now :
  (timeRange, d) ∈ windows →
  filterHistoryByTimeRange history timeRange now
    = List.filter (λ item, now - d <? startTime item) history.
Proof.
  intros Hw. apply filter_finite_cutoff.
  - by eapply windows_not_all.
  - by apply cutoff_window.
Qed.

Lemma filter_window_mono history (t1 t2 : string) (d1 d2 : Z) now :
  (t1, d1) ∈ windows → (t2, d2) ∈ windows → d1 ≤ d2 →
  sublist (filterHistoryByTimeRange history t1 now)
          (filterHistoryByTimeRange history t2 now).
Proof.
  intros H1 H2 Hle. rewrite (filter_window _ _ _ _ H1), (filter_window _ _ _ _ H2).
  apply list_filter_sublist_mono. intros x _. rewrite !Z.ltb_lt. lia.
Qed.

(** X1: at one clock reading the windows are nested: what '1h' returns is
    a sublist of what '6h' returns, which is a sublist of what '24h'
    returns, then '7d', then 'all'. *)
Theorem filter_windows_nested history now :
  sublist (filterHistoryByTimeRange history "1h" now)
          (filterHistoryByTimeRange history "6h" now)
  ∧ sublist (filterHistoryByTimeRange history "6h" now)
            (filterHistoryByTimeRange history "24h" now)
  ∧ sublist (filterHistoryByTimeRange history "24h" now)
            (filterHistoryByTimeRange history "7d" now)
  ∧ sublist (filterHistoryByTimeRange history "7d" now)
            (filterHistoryByTimeRange history "all" now).
Proof.
  assert (H1 : ("1h", 3600000) ∈ windows) by (unfold windows; repeat constructor).
  assert (H6 : ("6h", 21600000) ∈ windows) by (unfold windows; repeat constructor).
  assert (H24 : ("24h", 86400000) ∈ windows) by (unfold windows; repeat constructor).
  assert (H7 : ("7d", 604800000) ∈ windows) by (unfold windows; repeat constructor).
  split; [apply (filter_window_mono _ _ _ _ _ _ H1 H6); lia|].
  split; [apply (filter_window_mono _ _ _ _ _ _ H6 H24); lia|].
  split; [apply (filter_window_mono _ _ _ _ _ _ H24 H7); lia|].
  rewrite (filter_window _ _ _ _ H7). unfold filterHistoryByTimeRange; simpl.
  rewrite <- array_filter_is_filter. apply array_filter_sublist.
Qed.

(** X2: filtering is idempotent: filtering a result again with the same
    token at the same clock reading changes nothing, whatever the token. *)
Theorem filter_idempotent history timeRange now :
  filterHistoryByTimeRange
    (filterHistoryByTimeRange history timeRange now) timeRange now
  = filterHistoryByTimeRange history timeRange now.
Proof.
  rewrite !filter_as_list_filter.
  by apply (list_filter_narrow _ _ history).
Qed.

(** X3: the filter works entry by entry: filtering a concatenation gives
    the concatenation of the filtered parts, whatever the token. *)
Theorem filter_app history1 history2 timeRange now :
  filterHistoryByTimeRange (history1 ++ history2) timeRange now
  = (filterHistoryByTimeRange history1 timeRange now
     ++ filterHistoryByTimeRange history2 timeRange now)%list.
Proof. rewrite !filter_as_list_filter. apply List.filter_app. Qed.

(** X4: entries only age out: when the clock has advanced, the result for
    the same history and token is a sublist of the earlier result. *)
Theorem filter_ages_out history timeRange now (later : Z) :
  now ≤ later →
  sublist (filterHistoryByTimeRange history timeRange later)
          (filterHistoryByTimeRange history timeRange now).
Proof.
  intros Hle. rewrite !filter_as_list_filter.
  apply list_filter_sublist_mono. intros x _.
  case_decide; [done|].
  destruct (cutoff_shape timeRange) as [(d & _ & Hc)|Hc]; rewrite !Hc.
  - rewrite !gt_finite, !Z.ltb_lt. lia.
  - done.
Qed.

(** X5: on a history ordered by [startTime], oldest first, the result is a
    suffix of the history: the filter cuts off a front part and keeps the
    rest, whatever the token. *)
Theorem filter_sorted_suffix history timeRange now :
  Sorted (λ a b, startTime a ≤ startTime b) history →
  filterHistoryByTimeRange history timeRange now `suffix_of` history.
Proof.
  intros Hs. apply Sorted_StronglySorted in Hs;
    [|intros a b c Hab Hbc; lia].
  rewrite filter_as_list_filter.
  set (f := λ item : WorkflowProfile,
              if decide (timeRange = "all") then true
              else Js.gt (Js.Finite (startTime item)) (cutoff timeRange now)).
  assert (Hmono : ∀ x y, startTime x ≤ startTime y → f x = true → f y = true).
  { intros x y Hxy. unfold f. case_decide; [done|].
    destruct (cutoff_shape timeRange) as [(d & _ & Hc)|Hc]; rewrite !Hc.
    - rewrite !gt_finite, !Z.ltb_lt. lia.
    - done. }
  clearbody f.
  induction Hs as [|x l Hl IH Hx]; simpl; [done|].
  destruct (f x) eqn:Hkeep.
  - assert (Hall : List.filter f l = l).
    { apply list_filter_id_iff. intros y Hy.
      rewrite Forall_forall in Hx. apply (Hmono x y); [by apply Hx|done]. }
    by rewrite Hall.
  - by apply suffix_cons_r.
Qed.

(** X6: two windows in a row act as the narrower one, in either order. *)
Theorem filter_compose_windows history (t1 t2 : string) (d1 d2 : Z) now :
  (t1, d1) ∈ windows → (t2, d2) ∈ windows → d1 ≤ d2 →
  filterHistoryByTimeRange (filterHistoryByTimeRange history t2 now) t1 now
    = filterHistoryByTimeRange history t1 now
  ∧ filterHistoryByTimeRange (filterHistoryByTimeRange history t1 now) t2 now
    = filterHistoryByTimeRange history t1 now.
Proof.
  intros H1 H2 Hle.
  rewrite (filter_window _ _ _ _ H1), (filter_window _ _ _ _ H2).
  rewrite (filter_window _ _ _ now H1), (filter_window _ _ _ now H2).
  apply list_filter_narrow. intros x _. rewrite !Z.ltb_lt. lia.
Qed.

(** X7: a token that names a property object literals inherit ('valueOf',
    'constructor', '__proto__', ...) makes the cut-off NaN, and the result
    is empty for every history and every clock reading. *)
Theorem filter_inherited_empty history timeRange now :
  Js.inherited timeRange = true →
  cutoff timeRange now = Js.NaN
  ∧ filterHistoryByTimeRange history timeRange now = [].
Proof.
  intros Hinh. destruct (inherited_no_own _ Hinh) as [Hown Hne].
  pose proof (cutoff_inherited _ now Hown Hinh) as Hc.
  split; [done|]. by apply filter_nan_cutoff.
Qed.

(** X8: with a window token the filter returns the whole history exactly
    when every entry started after the cut-off, and nothing exactly when no
    entry did; an entry that started at the cut-off itself is dropped. *)
Theorem filter_window_extremes history timeRange (d : Z) now :
  (timeRange, d) ∈ windows →
  (filterHistoryByTimeRange history timeRange now = history
     ↔ ∀ item, item ∈ history → now - d < startTime item)
  ∧ (filterHistoryByTimeRange history timeRange now = []
     ↔ ∀ item, item ∈ history → startTime item ≤ now - d).
Proof.
  intros Hw. rewrite (filter_window _ _ _ _ Hw).
  rewrite list_filter_id_iff, list_filter_nil_iff. split.
  - split; intros H item Hin; specialize (H item Hin).
    + by apply Z.ltb_lt.
    + by apply Z.ltb_lt.
  - split; intros H item Hin; specialize (H item Hin).
    + by apply Z.ltb_ge.
    + by apply Z.ltb_ge.
Qed.

(** X9: no token other than 'all' reaches further back than seven days:
    the result is always a sublist of what '7d' returns. *)
Theorem filter_never_beyond_week history timeRange now :
  timeRange ≠ "all" →
  sublist (filterHistoryByTimeRange history timeRange now)
          (filterHistoryByTimeRange history "7d" now).
Proof.
  intros Hne.
  assert (H7 : ("7d", 604800000) ∈ windows) by (unfold windows; repeat constructor).
  rewrite (filter_window _ _ _ _ H7), filter_as_list_filter.
  apply list_filter_sublist_mono. intros x _.
  rewrite decide_False by done.
  destruct (cutoff_shape timeRange) as [(d & Hd & Hc)|Hc]; rewrite Hc.
  - rewrite gt_finite, !Z.ltb_lt. lia.
  - done.
Qed.

(** X10: the filter reads nothing but [startTime]: it commutes with any
    change of the entries that keeps their [startTime]. *)
Theorem filter_reads_only_startTime
    (change : WorkflowProfile → WorkflowProfile) history timeRange now :
  (∀ item, startTime (change item) = startTime item) →
  filterHistoryByTimeRange (map change history) timeRange now
    = map change (filterHistoryByTimeRange history timeRange now).
Proof.
  intros Hsame. rewrite !filter_as_list_filter.
  set (f := λ item : WorkflowProfile,
              if decide (timeRange = "all") then true
              else Js.gt (Js.Finite (startTime item)) (cutoff timeRange now)).
  assert (Hf : ∀ x, f (change x) = f x).
  { intros x. unfold f. by rewrite Hsame. }
  clearbody f.
  induction history as [|x l IH]; simpl; [done|].
  rewrite Hf, IH. by destruct (f x).
Qed.

(** X11: the array returned is the input array itself exactly for the token
    'all'; for every other token it is a new array, at an address that was
    not in use, and the store grows by that one array. *)
Theorem filter_returns_alias_only_for_all
    (σ : store) (a : nat) items timeRange now :
  σ !! a = Some items →
  let after := filterHistoryByTimeRange_ref σ a timeRange now in
  (after.2 = a ↔ timeRange = "all")
  ∧ (timeRange = "all" → after.1 = σ)
  ∧ (timeRange ≠ "all" →
       σ !! after.2 = None ∧ length after.1 = S (length σ)).
Proof.
  intros Ha after. apply lookup_lt_Some in Ha.
  unfold after, filterHistoryByTimeRange_ref, alloc.
  case_decide; simpl.
  - split; [done|]. split; [done|]. intros Hne. done.
  - split; [split; [lia|done]|]. split; [done|]. intros _.
    split; [by apply lookup_ge_None|]. rewrite length_app. simpl. lia.
Qed.

(** X4 with the clock moving from 10,000,000 to 12,000,000. *)
Lemma filter_ages_out_witness :
  10000000 ≤ 12000000
  ∧ sublist
      (filterHistoryByTimeRange
         [entry "a" 8200000; entry "b" 9900000] "1h" 12000000)
      (filterHistoryByTimeRange
         [entry "a" 8200000; entry "b" 9900000] "1h" 10000000).
Proof.
  assert (H : 10000000 ≤ 12000000) by lia.
  split; [exact H|].
  exact (filter_ages_out [entry "a" 8200000; entry "b" 9900000] "1h"
           10000000 12000000 H).
Defined.

(** X5 on a sorted history of three entries. *)
Lemma filter_sorted_suffix_witness :
  Sorted (λ a b, startTime a ≤ startTime b)
    [entry "a" 2800000; entry "b" 8200000; entry "c" 9900000]
  ∧ filterHistoryByTimeRange
      [entry "a" 2800000; entry "b" 8200000; entry "c" 9900000]
      "1h" 10000000
    `suffix_of` [entry "a" 2800000; entry "b" 8200000; entry "c" 9900000].
Proof.
  assert (H : Sorted (λ a b, startTime a ≤ startTime b)
                [entry "a" 2800000; entry "b" 8200000; entry "c" 9900000]).
  { repeat constructor; simpl; lia. }
  split; [exact H|].
  exact (filter_sorted_suffix _ "1h" 10000000 H).
Defined.

(** X6 with '1h' inside '24h'. *)
Lemma filter_compose_windows_witness :
  ("1h", 3600000) ∈ windows ∧ ("24h", 86400000) ∈ windows
  ∧ 3600000 ≤ 86400000
  ∧ filterHistoryByTimeRange
      (filterHistoryByTimeRange
         [entry "a" 2800000; entry "b" 8200000] "24h" 10000000)
      "1h" 10000000
    = filterHistoryByTimeRange
        [entry "a" 2800000; entry "b" 8200000] "1h" 10000000.
Proof.
  assert (H1 : ("1h", 3600000) ∈ windows) by (unfold windows; repeat constructor).
  assert (H2 : ("24h", 86400000) ∈ windows)
    by (unfold windows; repeat constructor).
  assert (Hle : 3600000 ≤ 86400000) by lia.
  split; [exact H1|]. split; [exact H2|]. split; [exact Hle|].
  exact (proj1 (filter_compose_windows
                  [entry "a" 2800000; entry "b" 8200000]
                  "1h" "24h" 3600000 86400000 10000000 H1 H2 Hle)).
Defined.

(** X7 at the inherited name 'constructor'. *)
Lemma filter_inherited_empty_witness :
  Js.inherited "constructor" = true
  ∧ filterHistoryByTimeRange [entry "a" 2000] "constructor" 1000 = [].
Proof.
  assert (H : Js.inherited "constructor" = true) by reflexivity.
  split; [exact H|].
  exact (proj2 (filter_inherited_empty [entry "a" 2000] "constructor" 1000 H)).
Defined.

(** X8 with '1h': an entry exactly at the cut-off empties the result. *)
Lemma filter_window_extremes_witness :
  ("1h", 3600000) ∈ windows
  ∧ filterHistoryByTimeRange [entry "a" 6400000] "1h" 10000000 = [].
Proof.
  assert (H : ("1h", 3600000) ∈ windows) by (unfold windows; repeat constructor).
  split; [exact H|].
  apply (proj2 (filter_window_extremes [entry "a" 6400000] "1h" 3600000
                  10000000 H)).
  intros item Hin. apply list_elem_of_singleton in Hin as ->. simpl. lia.
Defined.

(** X9 at the unrecognized token '30d'. *)
Lemma filter_never_beyond_week_witness :
  "30d" ≠ "all"
  ∧ sublist
      (filterHistoryByTimeRange [entry "a" 2000] "30d" 1000)
      (filterHistoryByTimeRange [entry "a" 2000] "7d" 1000).
Proof.
  assert (H : "30d" ≠ "all") by discriminate.
  split; [exact H|].
  exact (filter_never_beyond_week [entry "a" 2000] "30d" 1000 H).
Defined.

(** X10 with a change that renames the run of every entry. *)
Lemma filter_reads_only_startTime_witness :
  (∀ item, startTime (entry "renamed" (startTime item)) = startTime item)
  ∧ filterHistoryByTimeRange
      (map (λ item, entry "renamed" (startTime item))
           [entry "a" 2800000; entry "b" 8200000]) "1h" 10000000
    = map (λ item, entry "renamed" (startTime item))
        (filterHistoryByTimeRange
           [entry "a" 2800000; entry "b" 8200000] "1h" 10000000).
Proof.
  assert (H : ∀ item,
            startTime (entry "renamed" (startTime item)) = startTime item)
    by reflexivity.
  split; [exact H|].
  exact (filter_reads_only_startTime
           (λ item, entry "renamed" (startTime item))
           [entry "a" 2800000; entry "b" 8200000] "1h" 10000000 H).
Defined.

(** X11 on a store with one array, once with 'all' and once with '1h'. *)
Lemma filter_returns_alias_only_for_all_witness :
  ([[entry "a" 2800000]] : store) !! 0%nat = Some [entry "a" 2800000]
  ∧ (filterHistoryByTimeRange_ref [[entry "a" 2800000]] 0 "all" 10000000).2
    = 0%nat
  ∧ (filterHistoryByTimeRange_ref [[entry "a" 2800000]] 0 "1h" 10000000).2
    ≠ 0%nat.
Proof.
  assert (H : ([[entry "a" 2800000]] : store) !! 0%nat
              = Some [entry "a" 2800000]) by reflexivity.
  split; [exact H|]. split.
  - apply (proj1 (filter_returns_alias_only_for_all
                    [[entry "a" 2800000]] 0 _ "all" 10000000 H)).
    reflexivity.
  - intros Heq.
    apply (proj1 (filter_returns_alias_only_for_all
                    [[entry "a" 2800000]] 0 _ "1h" 10000000 H)) in Heq.
    discriminate.
Defined.

End FilterLaws.

(** * Properties of [createTimeRangeSelector] *)
Section SelectorFacts.

Import Dom Selector.

Implicit Types (doc fresh : list Element).

Lemma createElement_app doc fresh (name : string) :
  createElement (doc ++ fresh) name
    = ((doc ++ (fresh ++ [blank name]))%list, (length doc + length fresh)%nat).
Proof. unfold createElement. by rewrite length_app, <- app_assoc. Qed.

Lemma alter_app_fresh (f : Element → Element) doc fresh (k : nat) :
  alter f (length doc + k)%nat (doc ++ fresh)%list
    = (doc ++ alter f k fresh)%list.
Proof. apply alter_app_r. Qed.

Lemma lookup_app_fresh doc fresh (k : nat) :
  (doc ++ fresh)%list !! (length doc + k)%nat = fresh !! k.
Proof. by rewrite lookup_app_r, Nat.add_comm, Nat.add_sub by lia. Qed.

Lemma set_cssText_app doc fresh (k : nat) (s : string) :
  set_cssText (length doc + k) s (doc ++ fresh)
    = (doc ++ alter (with_cssText s) k fresh)%list.
Proof. apply alter_app_fresh. Qed.

Lemma set_value_app doc fresh (k : nat) (s : string) :
  set_value (length doc + k) s (doc ++ fresh)
    = (doc ++ alter (with_value s) k fresh)%list.
Proof. apply alter_app_fresh. Qed.

Lemma set_textContent_app doc fresh (k : nat) (s : string) (e : Element) :
  fresh !! k = Some e → children e = [] →
  set_textContent (length doc + k) s (doc ++ fresh)
    = (doc ++ alter (with_text s) k fresh)%list.
Proof.
  intros He Hc. unfold set_textContent.
  rewrite lookup_app_fresh, He. simpl. rewrite Hc. simpl.
  apply alter_app_fresh.
Qed.

Lemma appendChild_app doc fresh (p c : nat) (ep ec : Element) :
  fresh !! p = Some ep → parentNode ep = None →
  fresh !! c = Some ec → parentNode ec = None →
  p ≠ c →
  appendChild (length doc + p) (length doc + c) (doc ++ fresh)
    = inr (doc ++ alter (with_parent (Some (length doc + p)%nat)) c
                    (alter (λ e, with_children
                                   (children e ++ [(length doc + c)%nat])%list e)
                           p fresh))%list.
Proof.
  intros Hp Hpn Hc Hcn Hne. unfold appendChild.
  assert (Hanc : ancestors (length (doc ++ fresh)) (doc ++ fresh)
                   (length doc + p) = [(length doc + p)%nat]).
  { destruct (length (doc ++ fresh)); simpl; [done|].
    by rewrite lookup_app_fresh, Hp; simpl; rewrite Hpn. }
  rewrite Hanc, decide_False.
  - rewrite lookup_app_fresh, Hc. simpl. rewrite Hcn.
    by rewrite !alter_app_fresh.
  - rewrite list_elem_of_singleton. lia.
Qed.

Ltac dom_reduce :=
  cbv beta iota zeta;
  with_strategy opaque
    [createElement set_cssText set_value set_textContent appendChild
     add_options container_css select_css] simpl.

Ltac dom_step :=
  first
    [ rewrite createElement_app
    | rewrite set_cssText_app
    | rewrite set_value_app
    | erewrite set_textContent_app by reflexivity
    | erewrite appendChild_app by (reflexivity || discriminate) ];
  dom_reduce.

(** What the construction leaves in the store: the elements that existed,
    untouched, followed by the container, the label, the select and the five
    options. *)
Lemma createTimeRangeSelector_built doc :
  createTimeRangeSelector doc =
    inr ((doc ++
          [ {| localName := "div"; cssText := container_css;
               textContent := EmptyString; value := EmptyString;
               parentNode := None;
               children := [(length doc + 1)%nat; (length doc + 2)%nat] |};
            {| localName := "label"; cssText := EmptyString;
               textContent := "Show data from last: "; value := EmptyString;
               parentNode := Some (length doc + 0)%nat; children := [] |};
            {| localName := "select"; cssText := select_css;
               textContent := EmptyString; value := EmptyString;
               parentNode := Some (length doc + 0)%nat;
               children := [(length doc + 3)%nat; (length doc + 4)%nat;
                            (length doc + 5)%nat; (length doc + 6)%nat;
                            (length doc + 7)%nat] |};
            {| localName := "option"; cssText := EmptyString;
               textContent := "1 hour"; value := "1h";
               parentNode := Some (length doc + 2)%nat; children := [] |};
            {| localName := "option"; cssText := EmptyString;
               textContent := "6 hours"; value := "6h";
               parentNode := Some (length doc + 2)%nat; children := [] |};
            {| localName := "option"; cssText := EmptyString;
               textContent := "24 hours"; value := "24h";
               parentNode := Some (length doc + 2)%nat; children := [] |};
            {| localName := "option"; cssText := EmptyString;
               textContent := "7 days"; value := "7d";
               parentNode := Some (length doc + 2)%nat; children := [] |};
            {| localName := "option"; cssText := EmptyString;
               textContent := "All time"; value := "all";
               parentNode := Some (length doc + 2)%nat; children := [] |} ])%list,
         {| container := (length doc + 0)%nat;
            select := (length doc + 2)%nat |}).
Proof.
  unfold createTimeRangeSelector.
  rewrite <- (app_nil_r doc) at 1.
  do 6 dom_step. unfold TimeRange.options. cbn [add_options].
  do 20 dom_step. do 2 dom_step. reflexivity.
Qed.

(** How the filter treats one entry, for a token other than 'all'. *)
Lemma filter_single (item : WorkflowProfile) (token : string) (now : Z) :
  token ≠ "all" →
  TimeRange.filterHistoryByTimeRange [item] token now
    = if Js.gt (Js.Finite (startTime item)) (TimeRange.cutoff token now)
      then [item] else [].
Proof. intros Hne. by rewrite filter_not_all. Qed.

(** C4: the range tokens are exactly the five strings '1h', '6h', '24h',
    '7d' and 'all'.  The select that [createTimeRangeSelector] builds
    offers these five values, in this order, and no other; and they are
    exactly the tokens [filterHistoryByTimeRange] recognizes: 'all' is the
    one token for which it returns every history unchanged, the other four
    are the tokens for which it applies a look-back window of positive
    length, and for no other token does it do either. *)
Theorem range_vocabulary (doc : list Element) :
  (∃ doc' r s,
      createTimeRangeSelector doc = inr (doc', r)
      ∧ doc' !! select r = Some s
      ∧ map (λ a, value <$> doc' !! a) (children s)
        = [Some "1h"; Some "6h"; Some "24h"; Some "7d"; Some "all"])
  ∧ (∀ token,
       token = "all" ↔
       ∀ history now,
         TimeRange.filterHistoryByTimeRange history token now = history)
  ∧ (∀ token,
       token ∈ ["1h"; "6h"; "24h"; "7d"] ↔
       ∃ d, 0 < d ∧ ∀ history now,
         TimeRange.filterHistoryByTimeRange history token now
           = List.filter (λ item, now - d <? startTime item) history)
  ∧ (∀ token,
       token ∈ ["1h"; "6h"; "24h"; "7d"; "all"] ↔
       (∀ history now,
          TimeRange.filterHistoryByTimeRange history token now = history)
       ∨ ∃ d, 0 < d ∧ ∀ history now,
           TimeRange.filterHistoryByTimeRange history token now
             = List.filter (λ item, now - d <? startTime item) history).
Proof.
  assert (Hall : ∀ token,
    token = "all" ↔
    ∀ history now,
      TimeRange.filterHistoryByTimeRange history token now = history).
  { intros token. split; [by intros ->|]. intros Hid.
    destruct (decide (token = "all")) as [|Hne]; [done|exfalso].
    specialize (Hid [TimeRange.entry "old" (-604800001)] 0).
    rewrite filter_single in Hid by done.
    destruct (cutoff_shape token) as [(d & Hd & Hc)|Hc]; rewrite Hc in Hid;
      [|discriminate].
    rewrite gt_finite in Hid. simpl in Hid.
    rewrite (proj2 (Z.ltb_ge _ _)) in Hid by lia. discriminate. }
  assert (Hwin : ∀ token,
    token ∈ ["1h"; "6h"; "24h"; "7d"] ↔
    ∃ d, 0 < d ∧ ∀ history now,
      TimeRange.filterHistoryByTimeRange history token now
        = List.filter (λ item, now - d <? startTime item) history).
  { intros token. split.
    - rewrite !elem_of_cons, elem_of_nil.
      assert (H1 : ("1h", 3600000) ∈ TimeRange.windows)
        by (unfold TimeRange.windows; repeat constructor).
      assert (H6 : ("6h", 21600000) ∈ TimeRange.windows)
        by (unfold TimeRange.windows; repeat constructor).
      assert (H24 : ("24h", 86400000) ∈ TimeRange.windows)
        by (unfold TimeRange.windows; repeat constructor).
      assert (H7 : ("7d", 604800000) ∈ TimeRange.windows)
        by (unfold TimeRange.windows; repeat constructor).
      intros [->|[->|[->|[->|[]]]]]; eexists; (split; [|intros history now;
        by apply filter_window]); lia.
    - intros (d & Hd & Hwindow).
      destruct (decide (token = "all")) as [->|Hne].
      { exfalso. specialize (Hwindow [TimeRange.entry "edge" (0 - d)] 0).
        simpl in Hwindow. rewrite Z.ltb_irrefl in Hwindow. discriminate. }
      destruct (Js.own_property TimeRange.ranges token) as [d'|] eqn:Hown.
      + apply own_property_windows in Hown. unfold TimeRange.windows in Hown.
        rewrite !elem_of_cons, elem_of_nil in Hown.
        rewrite !elem_of_cons, elem_of_nil.
        destruct Hown as [H|[H|[H|[H|[]]]]]; injection H as -> ->; tauto.
      + exfalso. specialize (Hwindow [TimeRange.entry "now" 0] 0).
        rewrite filter_single in Hwindow by done. simpl in Hwindow.
        rewrite (proj2 (Z.ltb_lt _ _)) in Hwindow by lia.
        destruct (Js.inherited token) eqn:Hinh.
        * rewrite (cutoff_inherited _ 0 Hown Hinh) in Hwindow. discriminate.
        * rewrite (cutoff_fallback _ 0 Hown Hinh) in Hwindow.
          simpl in Hwindow. discriminate. }
  split; [|split; [exact Hall|split; [exact Hwin|]]].
  - eexists _, _, _. rewrite createTimeRangeSelector_built.
    split; [reflexivity|]. simpl. rewrite lookup_app_fresh. simpl.
    split; [reflexivity|]. simpl. by rewrite !lookup_app_fresh.
  - intros token. rewrite <- Hall, <- Hwin, !elem_of_cons, elem_of_nil. tauto.
Qed.

(** X12: the construction never raises a hierarchy error; it leaves every
    element that existed untouched and adds exactly eight new ones, the
    container being the first of them and the select the third. *)
Theorem createTimeRangeSelector_fresh doc :
  ∃ created,
    createTimeRangeSelector doc
      = inr ((doc ++ created)%list,
             {| container := length doc; select := (length doc + 2)%nat |})
    ∧ length created = 8%nat.
Proof.
  eexists. rewrite createTimeRangeSelector_built, Nat.add_0_r.
  split; reflexivity.
Qed.

(** X13: the tree that is built: a parentless [div] container carrying the
    flex style, whose children are, in this order, a [label] with the text
    'Show data from last: ' and the [select] that is returned; both have
    the container as parent, and the select has five children. *)
Theorem createTimeRangeSelector_tree doc doc' r :
  createTimeRangeSelector doc = inr (doc', r) →
  ∃ (c l s : Element) (lab : nat),
    doc' !! container r = Some c ∧ doc' !! lab = Some l
    ∧ doc' !! select r = Some s
    ∧ localName c = "div" ∧ cssText c = container_css
    ∧ parentNode c = None ∧ children c = [lab; select r]
    ∧ localName l = "label" ∧ textContent l = "Show data from last: "
    ∧ parentNode l = Some (container r) ∧ children l = []
    ∧ localName s = "select" ∧ cssText s = select_css
    ∧ parentNode s = Some (container r) ∧ length (children s) = 5%nat.
Proof.
  rewrite createTimeRangeSelector_built. intros [= <- <-]. simpl.
  eexists _, _, _, (length doc + 1)%nat.
  rewrite !lookup_app_fresh. simpl. repeat (split; [reflexivity|]).
  reflexivity.
Qed.

(** X14: the children of the select are option elements without children
    of their own that carry, in table order, the value and the label of
    the entries of [options]. *)
Theorem createTimeRangeSelector_options doc doc' r (s : Element) :
  createTimeRangeSelector doc = inr (doc', r) →
  doc' !! select r = Some s →
  Forall2
    (λ (a : nat) (opt : TimeRange.TimeRangeOption),
       ∃ e, doc' !! a = Some e
            ∧ localName e = "option"
            ∧ value e = TimeRange.value opt
            ∧ textContent e = TimeRange.label opt
            ∧ parentNode e = Some (select r)
            ∧ children e = [])
    (children s) TimeRange.options.
Proof.
  rewrite createTimeRangeSelector_built. intros [= <- <-]. simpl.
  rewrite lookup_app_fresh. simpl. intros [= <-]. simpl.
  unfold TimeRange.options.
  repeat (constructor;
          [eexists; rewrite lookup_app_fresh; simpl;
           repeat (split; [reflexivity|]); reflexivity|]).
  constructor.
Qed.

(** X15: whichever option of the select is chosen, the filter knows its
    value: it is 'all', or it selects a look-back window of positive
    length; no option leads to the fallback or to a NaN cut-off. *)
Theorem createTimeRangeSelector_values_filter
    doc doc' r (s e : Element) (a : nat) (now : Z) :
  createTimeRangeSelector doc = inr (doc', r) →
  doc' !! select r = Some s →
  a ∈ children s → doc' !! a = Some e →
  value e = "all"
  ∨ ∃ d, 0 < d ∧ TimeRange.cutoff (value e) now = Js.Finite (now - d).
Proof.
  rewrite createTimeRangeSelector_built. intros [= <- <-]. simpl.
  rewrite lookup_app_fresh. simpl. intros [= <-]. simpl.
  rewrite !elem_of_cons, elem_of_nil.
  intros [->|[->|[->|[->|[->|[]]]]]]; rewrite lookup_app_fresh; simpl;
    intros [= <-]; simpl.
  - right. exists 3600000. split; [lia|reflexivity].
  - right. exists 21600000. split; [lia|reflexivity].
  - right. exists 86400000. split; [lia|reflexivity].
  - right. exists 604800000. split; [lia|reflexivity].
  - by left.
Qed.

(** X16: a second call builds a second selector: its container and select
    differ from those of the first, and the elements of the first are all
    still in place. *)
Theorem createTimeRangeSelector_twice doc doc1 r1 doc2 r2 :
  createTimeRangeSelector doc = inr (doc1, r1) →
  createTimeRangeSelector doc1 = inr (doc2, r2) →
  container r2 ≠ container r1 ∧ select r2 ≠ select r1
  ∧ container r2 ≠ select r1 ∧ select r2 ≠ container r1
  ∧ ∀ (a : nat) (e : Element), doc1 !! a = Some e → doc2 !! a = Some e.
Proof.
  rewrite createTimeRangeSelector_built. intros [= <- <-].
  rewrite createTimeRangeSelector_built. intros [= <- <-].
  simpl. rewrite !length_app. simpl.
  repeat (split; [lia|]).
  intros a e Ha. by apply lookup_app_l_Some.
Qed.

(** X13 on an empty store. *)
Lemma createTimeRangeSelector_tree_witness :
  ∃ doc' r, createTimeRangeSelector [] = inr (doc', r)
    ∧ ∃ c, doc' !! container r = Some c ∧ localName c = "div"
           ∧ length (children c) = 2%nat.
Proof.
  destruct (createTimeRangeSelector []) as [err|[doc' r]] eqn:Hrun;
    [vm_compute in Hrun; discriminate|].
  exists doc', r. split; [reflexivity|].
  destruct (createTimeRangeSelector_tree [] doc' r Hrun)
    as (c & l & s & lab & Hc & _ & _ & Hname & _ & _ & Hch & _).
  exists c. split; [exact Hc|]. split; [exact Hname|]. by rewrite Hch.
Defined.

(** X14 on an empty store. *)
Lemma createTimeRangeSelector_options_witness :
  ∃ doc' r s, createTimeRangeSelector [] = inr (doc', r)
    ∧ doc' !! select r = Some s
    ∧ length (children s) = length TimeRange.options.
Proof.
  destruct (createTimeRangeSelector []) as [err|[doc' r]] eqn:Hrun;
    [vm_compute in Hrun; discriminate|].
  destruct (doc' !! select r) as [s|] eqn:Hs;
    [|vm_compute in Hrun; injection Hrun as <- <-; vm_compute in Hs;
      discriminate].
  exists doc', r, s. split; [reflexivity|]. split; [exact Hs|].
  exact (Forall2_length _ _ _
           (createTimeRangeSelector_options [] doc' r s Hrun Hs)).
Defined.

(** X15 on an empty store, at the first option. *)
Lemma createTimeRangeSelector_values_filter_witness :
  ∃ doc' r s e, createTimeRangeSelector [] = inr (doc', r)
    ∧ doc' !! select r = Some s ∧ 3%nat ∈ children s ∧ doc' !! 3%nat = Some e
    ∧ (value e = "all"
       ∨ ∃ d, 0 < d
              ∧ TimeRange.cutoff (value e) 10000000 = Js.Finite (10000000 - d)).
Proof.
  destruct (createTimeRangeSelector []) as [err|[doc' r]] eqn:Hrun;
    [vm_compute in Hrun; discriminate|].
  assert (Hdoc := Hrun). vm_compute in Hdoc. injection Hdoc as Hd Hr.
  destruct (doc' !! select r) as [s|] eqn:Hs;
    [|subst; vm_compute in Hs; discriminate].
  destruct (doc' !! 3%nat) as [e|] eqn:He;
    [|subst; vm_compute in He; discriminate].
  assert (Hin : 3%nat ∈ children s).
  { subst doc' r. vm_compute in Hs. injection Hs as <-. simpl. left. }
  exists doc', r, s, e. split; [reflexivity|]. split; [exact Hs|].
  split; [exact Hin|]. split; [exact He|].
  exact (createTimeRangeSelector_values_filter [] doc' r s e 3 10000000
           Hrun Hs Hin He).
Defined.

(** X16 starting from an empty store. *)
Lemma createTimeRangeSelector_twice_witness :
  ∃ doc1 r1 doc2 r2,
    createTimeRangeSelector [] = inr (doc1, r1)
    ∧ createTimeRangeSelector doc1 = inr (doc2, r2)
    ∧ container r2 ≠ container r1.
Proof.
  destruct (createTimeRangeSelector []) as [err|[doc1 r1]] eqn:Hrun1;
    [vm_compute in Hrun1; discriminate|].
  destruct (createTimeRangeSelector doc1) as [err|[doc2 r2]] eqn:Hrun2.
  { rewrite createTimeRangeSelector_built in Hrun2. discriminate. }
  exists doc1, r1, doc2, r2. split; [reflexivity|]. split; [exact Hrun2|].
  exact (proj1 (createTimeRangeSelector_twice [] doc1 r1 doc2 r2 Hrun1 Hrun2)).
Defined.

End SelectorFacts.

(** * Properties of the host API access *)
Section ComfyFacts.

Import Comfy.

Context {App J : Type}.

Implicit Types (w : Window App J).

(** X17: [fetchProfilerStats] sends at most one request, and only to
    '/profilerx/stats'.  It sends none exactly when [window.comfyAPI], its
    [api] module or the [api] instance in it is missing, and then rejects
    with a TypeError; and it fulfils with a value exactly when the instance
    is there, its [fetchApi] fulfils for that path and the response's
    [json()] fulfils with that value. *)
Theorem fetchProfilerStats_outcome w :
  ((fetchProfilerStats w).1 = [] ∨ (fetchProfilerStats w).1 = ["/profilerx/stats"])
  ∧ ((fetchProfilerStats w).1 = [] ↔
       (comfyAPI w = None
        ∨ (∃ c, comfyAPI w = Some c ∧ api_module c = None)
        ∨ (∃ c, comfyAPI w = Some c ∧ api_module c = Some None)))
  ∧ ((fetchProfilerStats w).1 = [] →
       (fetchProfilerStats w).2 = Rejected TypeError)
  ∧ (∀ v, (fetchProfilerStats w).2 = Fulfilled v ↔
       ∃ a r, api w = Some a
              ∧ fetchApi a "/profilerx/stats" = Fulfilled r
              ∧ json r = Fulfilled v).
Proof.
  unfold fetchProfilerStats, api.
  destruct (comfyAPI w) as [c|] eqn:Hc; simpl.
  - destruct (api_module c) as [[a|]|] eqn:Hm; simpl.
    + split; [by right|]. split.
      { split; [done|]. intros [?|[(c' & [= <-] & ?)|(c' & [= <-] & ?)]];
          congruence. }
      split; [done|]. intros v. split.
      * destruct (fetchApi a "/profilerx/stats") as [r|e] eqn:Hf; [|done].
        intros Hv. by exists a, r.
      * intros (a' & r & [= <-] & -> & Hv). done.
    + split; [by left|]. split; [split; eauto 10|].
      split; [done|]. intros v; split; [done|]. by intros (a & r & [=] & _).
    + split; [by left|]. split; [split; eauto 10|].
      split; [done|]. intros v; split; [done|]. by intros (a & r & [=] & _).
  - split; [by left|]. split; [split; eauto|].
    split; [done|]. intros v; split; [done|]. by intros (a & r & [=] & _).
Qed.

End ComfyFacts.

(** X17 on a window without [comfyAPI]. *)
Lemma fetchProfilerStats_outcome_witness :
  (Comfy.fetchProfilerStats (Comfy.mkWindow unit nat None)).1 = []
  ∧ (Comfy.fetchProfilerStats (Comfy.mkWindow unit nat None)).2
    = Comfy.Rejected Comfy.TypeError.
Proof.
  assert (H : (Comfy.fetchProfilerStats (Comfy.mkWindow unit nat None)).1 = [])
    by reflexivity.
  split; [exact H|].
  exact (proj1 (proj2 (proj2
           (fetchProfilerStats_outcome (Comfy.mkWindow unit nat None)))) H).
Defined.
